(** * Context7 MCP server (src/index.ts): session router and tool layer

    A shallow embedding of [src/index.ts].  The file has two parts:

    - [Tools]: the two registered tools, [resolve-library-id] and
      [get-library-docs], with the zod schema of the [tokens] argument and the
      [?folders=] convention of the library id;
    - [Router]: the session registry [transports], the three HTTP handlers on
      [/mcp] and the shutdown handlers, as functions on an explicit state.

    JavaScript numbers are IEEE 754 binary64 values ([spec_float]); JavaScript
    strings are [string]; the registry object is a [gmap] of its own
    properties together with the properties every object inherits from
    [Object.prototype].

    The definitions come first; the properties, one module of facts for each
    module of definitions, follow. *)

From Stdlib Require Import ZArith Ascii String SpecFloat Lia.
From stdpp Require Import gmap strings list fin_maps.

(** ** JavaScript numbers *)

Module JsNumber.

Abbreviation number := spec_float.

(** The number an integer literal denotes: the nearest binary64 value. *)
Definition of_Z (z : Z) : number := binary_normalize 53 1024 z 0 false.

Definition isNaN (x : number) : bool :=
  match x with S754_nan => true | _ => false end.

(** [x < y] and [x >= y] of JavaScript: both are false when an operand is NaN. *)
Definition lt (x y : number) : bool := SFltb x y.
Definition ge (x y : number) : bool := SFleb y x.

End JsNumber.

(** ** JavaScript strings: [includes] and [split] *)

Module JsString.

(** [strip sep s] is the rest of [s] after the prefix [sep], when [s] starts
    with [sep]. *)
Fixpoint strip (sep s : string) : option string :=
  match sep, s with
  | EmptyString, _ => Some s
  | String a sep', String b s' => if Ascii.eqb a b then strip sep' s' else None
  | String _ _, EmptyString => None
  end.

Definition startsWith (sep s : string) : bool :=
  match strip sep s with Some _ => true | None => false end.

(** [String.prototype.includes]: [sep] occurs at some position of [s]. *)
Fixpoint includes (sep s : string) : bool :=
  startsWith sep s ||
  match s with
  | EmptyString => false
  | String _ s' => includes sep s'
  end.

(** [String.prototype.split] with a non-empty separator, as a left-to-right
    scan: [cur] is the piece read so far, [skip] counts the characters of a
    matched separator that are still to be passed over. *)
Fixpoint split_scan (sep : string) (skip : nat) (cur s : string) : list string :=
  match s with
  | EmptyString => [cur]
  | String c s' =>
      match skip with
      | S k => split_scan sep k cur s'
      | O =>
          if startsWith sep s
          then cur :: split_scan sep (String.length sep - 1) EmptyString s'
          else split_scan sep 0 (cur +:+ String c EmptyString) s'
      end
  end.

Definition split (sep s : string) : list string := split_scan sep 0 EmptyString s.

(** [cut sep s] cuts [s] at the leftmost occurrence of [sep]: the text before
    it and the text after it. *)
Fixpoint cut (sep s : string) : option (string * string) :=
  match strip sep s with
  | Some rest => Some (EmptyString, rest)
  | None =>
      match s with
      | EmptyString => None
      | String c s' =>
          match cut sep s' with
          | Some (pre, rest) => Some (String c pre, rest)
          | None => None
          end
      end
  end.

(** [s] is [pre], then [sep], then [rest], and no occurrence of [sep] in [s]
    starts further left. *)
Definition leftmost (sep pre rest s : string) : Prop :=
  s = pre +:+ sep +:+ rest ∧
  ∀ pre' rest', s = pre' +:+ sep +:+ rest' → String.length pre ≤ String.length pre'.

(** [Array.prototype.join]: the elements, with [sep] between them. *)
Fixpoint join (sep : string) (pieces : list string) : string :=
  match pieces with
  | [] => EmptyString
  | [piece] => piece
  | piece :: pieces' => piece +:+ sep +:+ join sep pieces'
  end.

(** The first character of [sep] occurs nowhere else in [sep]: two
    occurrences of [sep] in a text cannot overlap. *)
Definition unbordered (sep : string) : Prop :=
  match sep with
  | EmptyString => False
  | String a sep' => a ∉ list_ascii_of_string sep'
  end.

End JsString.

(** ** The tool layer *)

Module Tools.
Import JsNumber JsString.

(** [const DEFAULT_MINIMUM_TOKENS: number = 5000] *)
Definition DEFAULT_MINIMUM_TOKENS : number := of_Z 5000.

(** A raw argument value, as it arrives in the arguments object of a tool
    call. *)
Inductive JsValue :=
| JsUndefined
| JsNull
| JsBoolean (b : bool)
| JsNumber (n : number)
| JsString (s : string)
| JsObject.

(** The part of the host that index.ts calls but does not define:
    [StringToNumber_other] is the builtin [Number] on the strings outside the
    fragment written out in [Number] below; [searchLibraries] and
    [fetchLibraryDocumentation] are imported from ./lib/api.js and
    [formatSearchResults] from ./lib/utils.js. [None] stands for [null]. *)
Record SearchResponse (R : Type) := { results : option (list R) }.
Arguments results {R} _.

Record FetchCall := {
  libraryId : option string;
  tokens : number;
  topic : string;
  folders : option string;
}.

Class Host := {
  StringToNumber_other : string → number;
  SearchResult : Type;
  searchLibraries : string → option (SearchResponse SearchResult);
  formatSearchResults : SearchResponse SearchResult → string;
  fetchLibraryDocumentation : FetchCall → option string;
}.

(** *** [Number(val)] on strings *)

Definition digit (c : ascii) : option Z :=
  let n := nat_of_ascii c in
  if (48 <=? n)%nat && (n <=? 57)%nat then Some (Z.of_nat (n - 48)) else None.

Fixpoint decimal (acc : Z) (s : string) : option Z :=
  match s with
  | EmptyString => Some acc
  | String c s' =>
      match digit c with
      | Some d => decimal (10 * acc + d) s'
      | None => None
      end
  end.

(** The empty string denotes [+0]; a string of at most 20 decimal digits
    denotes the nearest number to the integer it spells. *)
Definition Number `{Host} (s : string) : number :=
  match s with
  | EmptyString => of_Z 0
  | _ =>
      match decimal 0 s with
      | Some z => if (String.length s <=? 20)%nat then of_Z z else StringToNumber_other s
      | None => StringToNumber_other s
      end
  end.

(** *** The [tokens] schema

    [z.preprocess(f, z.number()).transform(g).optional()] *)

(** [(val) => (typeof val === "string" ? Number(val) : val)] *)
Definition preprocess `{Host} (val : JsValue) : JsValue :=
  match val with
  | JsString s => JsNumber (Number s)
  | _ => val
  end.

(** [z.number()]: accepts the values of type number other than NaN. *)
Definition z_number (val : JsValue) : option number :=
  match val with
  | JsNumber n => if isNaN n then None else Some n
  | _ => None
  end.

(** [(val) => (val < DEFAULT_MINIMUM_TOKENS ? DEFAULT_MINIMUM_TOKENS : val)] *)
Definition transform (val : number) : number :=
  if lt val DEFAULT_MINIMUM_TOKENS then DEFAULT_MINIMUM_TOKENS else val.

(** The whole schema: [None] is a validation error, [Some None] the value
    [undefined] that [.optional()] lets through. *)
Definition tokens_schema `{Host} (val : JsValue) : option (option number) :=
  match val with
  | JsUndefined => Some None
  | _ =>
      match z_number (preprocess val) with
      | Some n => Some (Some (transform n))
      | None => None
      end
  end.

(** *** [get-library-docs] *)

(** The validated arguments the handler is called with. *)
Record DocsArgs := {
  context7CompatibleLibraryID : string;
  args_topic : option string;
  args_tokens : option number;
}.

Definition parse_args `{Host} (id : string) (topic : option string) (rawTokens : JsValue)
  : option DocsArgs :=
  match tokens_schema rawTokens with
  | Some t => Some {| context7CompatibleLibraryID := id; args_topic := topic; args_tokens := t |}
  | None => None
  end.

Definition FOLDERS : string := "?folders=".

(** The call [fetchLibraryDocumentation(libraryId, { tokens, topic, folders })]
    the handler makes. The array pattern [[id, foldersParam]] reads the
    elements 0 and 1 of the split; a missing element is [undefined]. *)
Definition fetch_call (args : DocsArgs) : FetchCall :=
  let tokens := default DEFAULT_MINIMUM_TOKENS (args_tokens args) in
  let topic := default EmptyString (args_topic args) in
  let ID := context7CompatibleLibraryID args in
  if includes FOLDERS ID then
    let pieces := split FOLDERS ID in
    {| libraryId := pieces !! 0%nat; tokens := tokens; topic := topic;
       folders := pieces !! 1%nat |}
  else
    {| libraryId := Some ID; tokens := tokens; topic := topic;
       folders := Some EmptyString |}.

(** The token count of the fetch call an invocation with the raw [tokens]
    argument [rawTokens] makes; [None] when validation rejects the argument
    and the handler is not called. *)
Definition forwarded_tokens `{Host} (id : string) (topic : option string)
    (rawTokens : JsValue) : option number :=
  (tokens ∘ fetch_call) <$> parse_args id topic rawTokens.

Record TextContent := { type : string; text : string }.
Record CallToolResult := { content : list TextContent }.

Definition text_result (s : string) : CallToolResult :=
  {| content := [ {| type := "text"; text := s |} ] |}.

Definition DOCS_NOT_FOUND : string :=
  "Documentation not found or not finalized for this library. This might have happened because you used an invalid Context7-compatible library ID. To get a valid Context7-compatible library ID, use the 'resolve-library-id' with the package name you wish to retrieve documentation for.".

(** [!documentationText] holds for [null] and for the empty string. *)
Definition get_library_docs `{Host} (args : DocsArgs) : CallToolResult :=
  match fetchLibraryDocumentation (fetch_call args) with
  | Some (String c s) => text_result (String c s)
  | Some EmptyString | None => text_result DOCS_NOT_FOUND
  end.

(** *** [resolve-library-id] *)

Definition SEARCH_FAILED : string :=
  "Failed to retrieve library documentation data from Context7".
Definition NO_LIBRARIES : string := "No documentation libraries available".
Definition AVAILABLE : string :=
  "Available libraries and their Context7-compatible library IDs:" +:+
  String (ascii_of_nat 10) (String (ascii_of_nat 10) EmptyString).

Definition resolve_library_id `{Host} (libraryName : string) : CallToolResult :=
  match searchLibraries libraryName with
  | None => text_result SEARCH_FAILED
  | Some searchResponse =>
      match results searchResponse with
      | None => text_result SEARCH_FAILED
      | Some [] => text_result NO_LIBRARIES
      | Some (_ :: _) => text_result (AVAILABLE +:+ formatSearchResults searchResponse)
      end
  end.

End Tools.

(** ** The session registry and the HTTP handlers *)

Module Router.

(** *** Objects and values *)

(** A [StreamableHTTPServerTransport] object is known by its address; two
    variables hold the identical transport when they hold the same address. *)
Definition addr := nat.

(** What index.ts reads of a transport object: [transport.sessionId], which
    is [undefined] until the transport has been given its session id. *)
Record Transport := { sessionId : option string }.

(** The names every object inherits from [Object.prototype]. The registry is
    the object literal [{}], so [transports[k]] finds them when the registry
    has no property [k] of its own. *)
Definition Object_prototype : list string :=
  [ "constructor"; "__proto__"; "hasOwnProperty"; "isPrototypeOf";
    "propertyIsEnumerable"; "toLocaleString"; "toString"; "valueOf";
    "__defineGetter__"; "__defineSetter__"; "__lookupGetter__";
    "__lookupSetter__" ].

(** The value of the expression [transports[k]]. *)
Inductive Value :=
| VUndefined
| VTransport (a : addr)
| VInherited (name : string).

Definition get (registry : gmap string addr) (k : string) : Value :=
  match registry !! k with
  | Some a => VTransport a
  | None => if bool_decide (k ∈ Object_prototype) then VInherited k else VUndefined
  end.

(** [transports[k] = a]: creates or overwrites the own property [k]; the
    name [__proto__] is the prototype accessor, and assigning to it adds no
    property to the registry. *)
Definition set (k : string) (a : addr) (registry : gmap string addr) : gmap string addr :=
  if bool_decide (k = "__proto__") then registry else <[k := a]> registry.

(** The property key a header value ([string | undefined]) denotes. *)
Definition property_key (s : option string) : string :=
  match s with
  | Some k => k
  | None => "undefined"
  end.

(** Truthiness of a header value ([string | undefined]) and of a [Value]. *)
Definition truthy_string (s : option string) : bool :=
  match s with
  | Some (String _ _) => true
  | Some EmptyString | None => false
  end.

Definition truthy (v : Value) : bool :=
  match v with
  | VUndefined => false
  | VTransport _ | VInherited _ => true
  end.

(** *** State *)

(** [transports]: the own properties of the registry object.
    [heap]: the transport objects constructed so far. *)
Record State := {
  transports : gmap string addr;
  heap : gmap addr Transport;
}.

Definition initial : State := {| transports := ∅; heap := ∅ |}.

(** *** Requests and responses *)

(** What the handlers use of the protocol library: the type of request
    bodies and the predicate [isInitializeRequest]. *)
Class Sdk := {
  Body : Type;
  isInitializeRequest : Body → bool;
}.

Record Request `{Sdk} := {
  mcp_session_id : option string;
  body : Body;
}.

(** The object [{ jsonrpc, error: { code, message }, id }] given to
    [res.json]; [id] is always [null] here. *)
Inductive JsonRpcId := null | id_number (z : Z) | id_string (s : string).
Record JsonRpcError := { code : Z; message : string }.
Record ErrorEnvelope := { jsonrpc : string; error : JsonRpcError; id : JsonRpcId }.

Inductive Payload :=
| json (j : ErrorEnvelope)
| send (s : string).

Record Response := { status : Z; payload : Payload }.

(** How a handler ends: it wrote the response itself; or it handed the
    request to [handleRequest] of the transport object [a], which writes the
    response; or the call [transport.handleRequest(...)] threw because the
    value looked up is not a transport. *)
Inductive Outcome :=
| Responded (r : Response)
| HandleRequest (a : addr)
| TypeError (name : string).

Definition BAD_REQUEST : string :=
  "Bad Request: No valid session ID provided or not an initialization request.".

Definition bad_request : ErrorEnvelope :=
  {| jsonrpc := "2.0";
     error := {| code := -32000; message := BAD_REQUEST |};
     id := null |}.

(** [await transport.handleRequest(req, res, ...)] on a looked-up value. *)
Definition call_handleRequest (v : Value) : Outcome :=
  match v with
  | VTransport a => HandleRequest a
  | VInherited name => TypeError name
  | VUndefined => TypeError "undefined"
  end.

(** *** [app.post('/mcp', ...)]

    A handler returns the state at the point where it has written its
    response or calls [transport.handleRequest]. What the transport does
    while it handles the request (it may give itself a session id, or close)
    comes through the callbacks below, as moves of their own. *)

(** [new StreamableHTTPServerTransport({...})]: a new object, with no session
    id yet. *)
Definition new_transport (st : State) : addr * State :=
  let a := fresh (dom (heap st)) in
  (a, {| transports := transports st;
         heap := <[a := {| sessionId := None |}]> (heap st) |}).

Definition post `{Sdk} (st : State) (req : Request) : State * Outcome :=
  let sessionId := mcp_session_id req in
  if truthy_string sessionId && truthy (get (transports st) (property_key sessionId)) then
    (st, call_handleRequest (get (transports st) (property_key sessionId)))
  else if negb (truthy_string sessionId) && isInitializeRequest (body req) then
    let '(transport, st') := new_transport st in
    (st', HandleRequest transport)
  else
    (st, Responded {| status := 400; payload := json bad_request |}).

(** The two callbacks of the transport [transport] built on the create path. *)

(** [onsessioninitialized: (newSessionId) => { transports[newSessionId] = transport }] *)
Definition onsessioninitialized (transport : addr) (newSessionId : string) (st : State)
  : State :=
  {| transports := set newSessionId transport (transports st); heap := heap st |}.

(** [transport.onclose = () => { if (transport.sessionId) delete transports[transport.sessionId] }] *)
Definition onclose (transport : addr) (st : State) : State :=
  match heap st !! transport with
  | Some {| sessionId := Some (String c s) |} =>
      {| transports := delete (String c s) (transports st); heap := heap st |}
  | _ => st
  end.

(** *** [handleSessionRequest], for GET and DELETE *)

Definition INVALID_SESSION : string := "Invalid or missing session ID".

Definition handleSessionRequest `{Sdk} (st : State) (req : Request) : State * Outcome :=
  let sessionId := mcp_session_id req in
  if negb (truthy_string sessionId)
     || negb (truthy (get (transports st) (property_key sessionId))) then
    (st, Responded {| status := 400; payload := send INVALID_SESSION |})
  else
    (st, call_handleRequest (get (transports st) (property_key sessionId))).

(** *** Shutdown *)

(** What a signal handler does, in order. *)
Inductive Event :=
| console_log (s : string)
| transport_close (a : addr)
| server_close
| process_exit (code : Z).

(** [Object.values(transports)] *)
Definition Object_values (registry : gmap string addr) : list addr :=
  (map_to_list registry).*2.

Definition shutdown (st : State) : list Event :=
  [console_log "Shutting down server..."]
  ++ (transport_close <$> Object_values (transports st))
  ++ [server_close; process_exit 0].

Definition SIGINT : State → list Event := shutdown.
Definition SIGTERM : State → list Event := shutdown.

(** The state after the close callbacks of the transports in [closed] have
    run, in the order of the [close()] calls. *)
Definition close_callbacks (closed : list addr) (st : State) : State :=
  foldl (λ st transport, onclose transport st) st closed.

(** *** The transport library, as far as it calls back into index.ts *)

(** The shape of the strings [randomUUID()] returns. *)
Definition hex_digit (c : ascii) : bool :=
  bool_decide (c ∈ list_ascii_of_string "0123456789abcdef").

Definition uuid_char (p c : ascii) : bool :=
  if Ascii.eqb p "x" then hex_digit c
  else if Ascii.eqb p "y" then bool_decide (c ∈ list_ascii_of_string "89ab")
  else Ascii.eqb p c.

Fixpoint matches (pattern s : string) : bool :=
  match pattern, s with
  | EmptyString, EmptyString => true
  | String p pattern', String c s' => uuid_char p c && matches pattern' s'
  | _, _ => false
  end.

Definition is_uuid (s : string) : bool :=
  matches "xxxxxxxx-xxxx-4xxx-yxxx-xxxxxxxxxxxx" s.

(** While it handles the initialization request, the transport calls
    [sessionIdGenerator()], keeps the result as its [sessionId] and calls
    [onsessioninitialized] with it. *)
Definition session_initialized (transport : addr) (uuid : string) (st : State) : State :=
  onsessioninitialized transport uuid
    {| transports := transports st;
       heap := <[transport := {| sessionId := Some uuid |}]> (heap st) |}.

(** No transport has been given the id [uuid] so far. *)
Definition unused (uuid : string) (st : State) : Prop :=
  ∀ b t, heap st !! b = Some t → sessionId t ≠ Some uuid.

(** The moves of the server: a POST, a GET or DELETE, and the two callbacks
    of a transport. The transport library gives a session id once, to a
    transport that has none, and [randomUUID()] is taken to return a UUID
    that it has not returned before; [close()] can come at any time, also
    more than once. *)
Inductive Label `{Sdk} :=
| Post (req : Request)
| SessionRequest (req : Request)
| Initialized (transport : addr) (uuid : string)
| Closed (transport : addr).

Inductive step `{Sdk} : State → Label → State → Prop :=
| step_post st req :
    step st (Post req) (post st req).1
| step_session_request st req :
    step st (SessionRequest req) (handleSessionRequest st req).1
| step_initialized st transport uuid :
    heap st !! transport = Some {| sessionId := None |} →
    is_uuid uuid = true →
    unused uuid st →
    step st (Initialized transport uuid) (session_initialized transport uuid st)
| step_closed st transport :
    is_Some (heap st !! transport) →
    step st (Closed transport) (onclose transport st).

Inductive steps `{Sdk} : State → list Label → State → Prop :=
| steps_nil st : steps st [] st
| steps_cons st l st' ls st'' :
    step st l st' → steps st' ls st'' → steps st (l :: ls) st''.

Definition reachable `{Sdk} (st : State) : Prop := ∃ ls, steps initial ls st.

(** The same moves when [randomUUID()] may return an id again: index.ts has
    no check of its own against that, and [transports[newSessionId] =
    transport] then overwrites the entry. *)
Inductive move `{Sdk} : State → Label → State → Prop :=
| move_post st req :
    move st (Post req) (post st req).1
| move_session_request st req :
    move st (SessionRequest req) (handleSessionRequest st req).1
| move_initialized st transport uuid :
    heap st !! transport = Some {| sessionId := None |} →
    is_uuid uuid = true →
    move st (Initialized transport uuid) (session_initialized transport uuid st)
| move_closed st transport :
    is_Some (heap st !! transport) →
    move st (Closed transport) (onclose transport st).

Inductive moves `{Sdk} : State → list Label → State → Prop :=
| moves_nil st : moves st [] st
| moves_cons st l st' ls st'' :
    move st l st' → moves st' ls st'' → moves st (l :: ls) st''.

(** The registry maps [uuid] to [transport], and no other transport has the
    session id [uuid]. *)
Definition owns (transport : addr) (uuid : string) (st : State) : Prop :=
  transports st !! uuid = Some transport ∧
  ∀ b t, heap st !! b = Some t → sessionId t = Some uuid → b = transport.

(** What holds of every state the server can be in: a registry entry [k]
    points to a transport whose session id is [k]; two transports never have
    the same session id; session ids are UUIDs. *)
Record consistent (st : State) : Prop := {
  registered : ∀ k a, transports st !! k = Some a →
    ∃ t, heap st !! a = Some t ∧ sessionId t = Some k;
  distinct : ∀ a b ta tb s,
    heap st !! a = Some ta → heap st !! b = Some tb →
    sessionId ta = Some s → sessionId tb = Some s → a = b;
  uuids : ∀ a t s, heap st !! a = Some t → sessionId t = Some s → is_uuid s = true;
}.

End Router.

(** ** Sample hosts, to run the model on concrete inputs *)

Module Samples.
Import JsNumber Tools.

(** An upstream that knows no library: every search answers with an empty
    result list, except for the name ["down"], where the call fails; no
    documentation is found. *)
Definition empty_upstream : Host :=
  {| StringToNumber_other := λ _, S754_nan;
     SearchResult := string;
     searchLibraries := λ name,
       if String.eqb name "down" then None else Some {| results := Some [] |};
     formatSearchResults := λ _, EmptyString;
     fetchLibraryDocumentation := λ _, None |}.

(** A protocol library whose request bodies only say whether they are an
    initialization request. *)
Definition flag_bodies : Router.Sdk :=
  {| Router.Body := bool; Router.isInitializeRequest := λ b, b |}.

Definition request (header : option string) (initialize : bool)
  : @Router.Request flag_bodies :=
  @Router.Build_Request flag_bodies header initialize.

(** The server after one handshake: a POST with an initialization body and
    no header, then the session id given to the new transport. *)
Definition sample_uuid : string := "123e4567-e89b-42d3-a456-426614174000".

Definition one_session : Router.State :=
  Router.session_initialized 0 sample_uuid
    (@Router.post flag_bodies Router.initial (request None true)).1.

End Samples.

(** * Properties *)

(** ** Order of JavaScript numbers *)

Module JsNumberFacts.
Import JsNumber.

Lemma compare_antisym (x y : number) :
  SFcompare x y = CompOpp <$> SFcompare y x.
Proof.
  destruct x as [[]|[]| |[] m1 e1], y as [[]|[]| |[] m2 e2]; simpl; try reflexivity;
    rewrite (Z.compare_antisym e1 e2);
    change (Pos.compare_cont Eq m2 m1) with (Pos.compare_cont (CompOpp Eq) m2 m1);
    rewrite <- (Pos.compare_cont_antisym m1 m2 Eq);
    destruct (e1 ?= e2)%Z; simpl; try reflexivity;
    destruct (Pos.compare_cont Eq m1 m2); reflexivity.
Qed.

Lemma compare_refl (x : number) : isNaN x = false → SFcompare x x = Some Eq.
Proof.
  destruct x as [[]|[]| |[] m e]; simpl; intros H; try reflexivity; try discriminate.
  - rewrite Z.compare_refl, Pos.compare_cont_refl. reflexivity.
  - rewrite Z.compare_refl, Pos.compare_cont_refl. reflexivity.
Qed.

Lemma compare_total (x y : number) :
  isNaN x = false → isNaN y = false → is_Some (SFcompare x y).
Proof.
  destruct x as [[]|[]| |[] m1 e1], y as [[]|[]| |[] m2 e2]; simpl;
    intros; try discriminate; eauto.
Qed.

Lemma ge_not_lt (x y : number) : ge x y = true → lt x y = false.
Proof.
  unfold ge, lt, SFleb, SFltb. rewrite (compare_antisym y x).
  destruct (SFcompare x y) as [[]|]; simpl; congruence.
Qed.

Lemma lt_or_ge (x y : number) :
  isNaN x = false → isNaN y = false → lt x y = true ∨ ge x y = true.
Proof.
  intros Hx Hy. unfold ge, lt, SFleb, SFltb. rewrite (compare_antisym y x).
  destruct (compare_total x y Hx Hy) as [c ->]. destruct c; simpl; auto.
Qed.

Lemma lt_ge_flip (x y : number) : lt x y = true → ge y x = true.
Proof. unfold ge, lt, SFleb, SFltb. destruct (SFcompare x y) as [[]|]; congruence. Qed.

Lemma ge_refl (x : number) : isNaN x = false → ge x x = true.
Proof. intros H. unfold ge, SFleb. rewrite (compare_refl x H). reflexivity. Qed.

(** The integers used below are binary64 values in canonical form, on which
    [SFcompare] is the order of the reals. *)
Example of_Z_canonical :
  valid_binary 53 1024 (of_Z 5000) = true ∧
  valid_binary 53 1024 (of_Z 10) = true ∧
  valid_binary 53 1024 (of_Z 9000) = true ∧
  lt (of_Z 10) (of_Z 5000) = true ∧
  ge (of_Z 9000) (of_Z 5000) = true ∧
  lt (S754_infinity true) (of_Z 5000) = true ∧
  ge (S754_infinity false) (of_Z 5000) = true.
Proof. repeat split. Qed.

End JsNumberFacts.

(** ** [includes] and [split] *)

Module JsStringFacts.
Import JsString.

Lemma append_cons (c : ascii) (s t : string) : String c s +:+ t = String c (s +:+ t).
Proof. reflexivity. Qed.

Lemma append_nil_l (s : string) : EmptyString +:+ s = s.
Proof. reflexivity. Qed.

Lemma append_nil_r (s : string) : s +:+ EmptyString = s.
Proof. induction s as [|c s IH]; [reflexivity | by rewrite append_cons, IH]. Qed.

Lemma append_assoc (s1 s2 s3 : string) : (s1 +:+ s2) +:+ s3 = s1 +:+ s2 +:+ s3.
Proof. induction s1 as [|c s1 IH]; [reflexivity | by rewrite !append_cons, IH]. Qed.

Lemma strip_Some (sep s rest : string) : strip sep s = Some rest ↔ s = sep +:+ rest.
Proof.
  revert s. induction sep as [|a sep IH]; intros s; simpl.
  - rewrite append_nil_l. split; congruence.
  - rewrite append_cons. destruct s as [|b s]; [split; discriminate |].
    destruct (Ascii.eqb_spec a b) as [->|Hne].
    + rewrite IH. split; congruence.
    + split; [discriminate | congruence].
Qed.

Lemma strip_None (sep s : string) :
  strip sep s = None → ∀ rest, s ≠ sep +:+ rest.
Proof. intros Hnone rest Heq. apply strip_Some in Heq. congruence. Qed.

Lemma cut_leftmost (sep s pre rest : string) :
  cut sep s = Some (pre, rest) → leftmost sep pre rest s.
Proof.
  revert pre rest. induction s as [|c s IH]; intros pre rest; simpl.
  - destruct (strip sep EmptyString) as [r|] eqn:Hstrip; [|discriminate].
    intros [= <- <-]. apply strip_Some in Hstrip.
    split; [exact Hstrip | simpl; lia].
  - destruct (strip sep (String c s)) as [r|] eqn:Hstrip.
    + intros [= <- <-]. apply strip_Some in Hstrip.
      split; [exact Hstrip | simpl; lia].
    + destruct (cut sep s) as [[p r]|] eqn:Hcut; [|discriminate].
      intros [= <- <-]. destruct (IH p r eq_refl) as [Hs Hmin].
      split; [rewrite append_cons; by rewrite <- Hs |].
      intros [|c' pre'] rest' Heq.
      * exfalso. exact (strip_None _ _ Hstrip _ Heq).
      * rewrite append_cons in Heq. injection Heq as _ Heq.
        specialize (Hmin _ _ Heq). simpl. lia.
Qed.

Lemma includes_cut (sep s : string) :
  includes sep s = bool_decide (is_Some (cut sep s)).
Proof.
  induction s as [|c s IH]; simpl; unfold startsWith.
  - destruct (strip sep EmptyString); reflexivity.
  - destruct (strip sep (String c s)); [reflexivity |].
    simpl. rewrite IH. destruct (cut sep s) as [[p r]|]; reflexivity.
Qed.

Lemma includes_intro (sep pre rest : string) :
  includes sep (pre +:+ sep +:+ rest) = true.
Proof.
  induction pre as [|c pre IH].
  - rewrite append_nil_l.
    assert (Hstart : startsWith sep (sep +:+ rest) = true).
    { unfold startsWith. by rewrite (proj2 (strip_Some sep _ rest) eq_refl). }
    destruct (sep +:+ rest); simpl in *; by rewrite Hstart.
  - rewrite append_cons. simpl. rewrite IH. apply orb_true_r.
Qed.

Lemma includes_true (sep s : string) :
  includes sep s = true → ∃ pre rest, cut sep s = Some (pre, rest).
Proof.
  rewrite includes_cut. intros [[p r] Hcut]%bool_decide_eq_true. eauto.
Qed.

Lemma includes_false (sep s : string) : includes sep s = false → cut sep s = None.
Proof.
  rewrite includes_cut. intros Hnone%bool_decide_eq_false.
  destruct (cut sep s); [exfalso; eauto | reflexivity].
Qed.

Lemma split_scan_skip (sep x cur rest : string) :
  split_scan sep (String.length x) cur (x +:+ rest) = split_scan sep 0 cur rest.
Proof. induction x as [|c x IH]; simpl; [reflexivity | exact IH]. Qed.

(** One round of the scan: up to the leftmost separator, then on from the
    text after it. *)
Lemma split_scan_cut (sep s cur : string) :
  sep ≠ EmptyString →
  split_scan sep 0 cur s =
    match cut sep s with
    | Some (pre, rest) => (cur +:+ pre) :: split_scan sep 0 EmptyString rest
    | None => [cur +:+ s]
    end.
Proof.
  intros Hsep. destruct sep as [|a sep']; [done | clear Hsep].
  revert cur. induction s as [|c s IH]; intros cur.
  - simpl. by rewrite append_nil_r.
  - cbn [split_scan cut]. unfold startsWith.
    destruct (strip (String a sep') (String c s)) as [r|] eqn:Hstrip.
    + rewrite append_nil_r. f_equal.
      apply strip_Some in Hstrip. rewrite append_cons in Hstrip.
      injection Hstrip as _ ->.
      replace (String.length (String a sep') - 1) with (String.length sep')
        by (cbn [String.length]; lia).
      apply split_scan_skip.
    + rewrite IH. destruct (cut (String a sep') s) as [[p r]|].
      * rewrite append_assoc. reflexivity.
      * rewrite append_assoc. reflexivity.
Qed.

Lemma split_cut (sep s : string) :
  sep ≠ EmptyString →
  split sep s =
    match cut sep s with
    | Some (pre, rest) => pre :: split sep rest
    | None => [s]
    end.
Proof. intros Hsep. unfold split. by rewrite split_scan_cut. Qed.

End JsStringFacts.

(** ** The tool layer *)

Module ToolsFacts.
Import JsNumber JsString Tools JsNumberFacts JsStringFacts.

Lemma tokens_fetch_call (args : DocsArgs) :
  tokens (fetch_call args) = default DEFAULT_MINIMUM_TOKENS (args_tokens args).
Proof. unfold fetch_call. destruct (includes _ _); reflexivity. Qed.

Lemma forwarded_number `{Host} id topic (t : number) :
  isNaN t = false →
  forwarded_tokens id topic (JsNumber t) = Some (transform t).
Proof.
  intros Ht. unfold forwarded_tokens, parse_args, tokens_schema. simpl.
  rewrite Ht. simpl. rewrite tokens_fetch_call. reflexivity.
Qed.

Lemma transform_lt (t : number) :
  lt t DEFAULT_MINIMUM_TOKENS = true → transform t = DEFAULT_MINIMUM_TOKENS.
Proof. intros Hlt. unfold transform. rewrite Hlt. reflexivity. Qed.

Lemma transform_ge (t : number) :
  ge t DEFAULT_MINIMUM_TOKENS = true → transform t = t.
Proof. intros Hge. unfold transform. rewrite (ge_not_lt _ _ Hge). reflexivity. Qed.

Lemma transform_never_reduces (t : number) :
  isNaN t = false → ge (transform t) t = true.
Proof.
  intros Ht. unfold transform.
  destruct (lt t DEFAULT_MINIMUM_TOKENS) eqn:Hlt.
  - apply lt_ge_flip, Hlt.
  - apply ge_refl, Ht.
Qed.

(** C4. A numeric [tokens] argument [t] reaches the documentation fetch as
    5000 when [t < 5000] and as [t] itself when [t >= 5000]; one of the two
    always applies, so the forwarded count is never below [t]; 10 is
    forwarded as 5000 and 9000 as 9000. *)
Theorem tokens_clamped_upward `{Host} (id : string) (topic : option string) (t : number) :
  isNaN t = false →
  (lt t DEFAULT_MINIMUM_TOKENS = true →
     forwarded_tokens id topic (JsNumber t) = Some (of_Z 5000)) ∧
  (ge t DEFAULT_MINIMUM_TOKENS = true →
     forwarded_tokens id topic (JsNumber t) = Some t) ∧
  (lt t DEFAULT_MINIMUM_TOKENS = true ∨ ge t DEFAULT_MINIMUM_TOKENS = true) ∧
  (∃ v, forwarded_tokens id topic (JsNumber t) = Some v ∧ ge v t = true) ∧
  forwarded_tokens id topic (JsNumber (of_Z 10)) = Some (of_Z 5000) ∧
  forwarded_tokens id topic (JsNumber (of_Z 9000)) = Some (of_Z 9000).
Proof.
  intros Ht. rewrite (forwarded_number id topic t Ht).
  repeat split.
  - intros Hlt. rewrite (transform_lt t Hlt). reflexivity.
  - intros Hge. rewrite (transform_ge t Hge). reflexivity.
  - apply lt_or_ge; [exact Ht | reflexivity].
  - exists (transform t). split; [reflexivity | apply transform_never_reduces, Ht].
  - rewrite forwarded_number by reflexivity. reflexivity.
  - rewrite forwarded_number by reflexivity. reflexivity.
Qed.

Lemma tokens_clamped_upward_witness :
  isNaN (of_Z 4999) = false ∧
  lt (of_Z 4999) DEFAULT_MINIMUM_TOKENS = true ∧
  @forwarded_tokens Samples.empty_upstream "vercel/nextjs" None (JsNumber (of_Z 4999))
    = Some (of_Z 5000).
Proof.
  split; [reflexivity | split; [reflexivity |]].
  apply (@tokens_clamped_upward Samples.empty_upstream "vercel/nextjs" None (of_Z 4999));
    reflexivity.
Defined.

(** C9. A [tokens] argument given as a string is converted with [Number]
    before the clamp, so it is forwarded as the number it denotes would be:
    ["10"] as 5000 and ["9000"] as 9000; when the argument is omitted, 5000
    is forwarded. *)
Theorem tokens_string_as_number `{Host} (id : string) (topic : option string) :
  (∀ s : string,
     forwarded_tokens id topic (JsString s) = forwarded_tokens id topic (JsNumber (Number s))) ∧
  Number "10" = of_Z 10 ∧
  Number "9000" = of_Z 9000 ∧
  forwarded_tokens id topic (JsString "10") = Some (of_Z 5000) ∧
  forwarded_tokens id topic (JsString "9000") = Some (of_Z 9000) ∧
  forwarded_tokens id topic JsUndefined = Some (of_Z 5000).
Proof.
  assert (Hs : ∀ s : string,
    forwarded_tokens id topic (JsString s) = forwarded_tokens id topic (JsNumber (Number s)))
    by reflexivity.
  split; [exact Hs |].
  split; [reflexivity | split; [reflexivity |]].
  split; [| split].
  - rewrite Hs. change (Number "10") with (of_Z 10).
    rewrite forwarded_number by reflexivity. reflexivity.
  - rewrite Hs. change (Number "9000") with (of_Z 9000).
    rewrite forwarded_number by reflexivity. reflexivity.
  - unfold forwarded_tokens. simpl. rewrite tokens_fetch_call. reflexivity.
Qed.

(** C6. When the upstream call gives nothing, the tool still returns a
    content payload with an explanatory text: a search that fails or has no
    result list, a search with an empty result list (exactly the text
    "No documentation libraries available"), a documentation fetch with no
    text. *)
Theorem upstream_failures_become_text `{Host} :
  (∀ libraryName,
     searchLibraries libraryName = None ∨
     (∃ r, searchLibraries libraryName = Some r ∧ results r = None) →
     resolve_library_id libraryName =
       {| content := [ {| type := "text";
            text := "Failed to retrieve library documentation data from Context7" |} ] |}) ∧
  (∀ libraryName r,
     searchLibraries libraryName = Some r → results r = Some [] →
     resolve_library_id libraryName =
       {| content := [ {| type := "text";
            text := "No documentation libraries available" |} ] |}) ∧
  (∀ args,
     fetchLibraryDocumentation (fetch_call args) = None ∨
     fetchLibraryDocumentation (fetch_call args) = Some EmptyString →
     get_library_docs args =
       {| content := [ {| type := "text"; text := DOCS_NOT_FOUND |} ] |}).
Proof.
  repeat split.
  - intros libraryName [Hnone | (r & Hr & Hres)]; unfold resolve_library_id.
    + rewrite Hnone. reflexivity.
    + rewrite Hr, Hres. reflexivity.
  - intros libraryName r Hr Hres. unfold resolve_library_id.
    rewrite Hr, Hres. reflexivity.
  - intros args [Hnone | Hempty]; unfold get_library_docs.
    + rewrite Hnone. reflexivity.
    + rewrite Hempty. reflexivity.
Qed.

Lemma upstream_failures_become_text_witness :
  @resolve_library_id Samples.empty_upstream "down" =
    {| content := [ {| type := "text";
         text := "Failed to retrieve library documentation data from Context7" |} ] |} ∧
  @resolve_library_id Samples.empty_upstream "react" =
    {| content := [ {| type := "text";
         text := "No documentation libraries available" |} ] |} ∧
  @get_library_docs Samples.empty_upstream
    {| context7CompatibleLibraryID := "vercel/nextjs"; args_topic := None;
       args_tokens := None |} =
    {| content := [ {| type := "text"; text := DOCS_NOT_FOUND |} ] |}.
Proof.
  destruct (@upstream_failures_become_text Samples.empty_upstream) as (Hfail & Hempty & Hdocs).
  split; [| split].
  - apply Hfail. left. reflexivity.
  - apply (Hempty "react" {| results := Some [] |}); reflexivity.
  - apply Hdocs. left. reflexivity.
Defined.

Example split_twice :
  split FOLDERS "a?folders=b?folders=c" = ["a"; "b"; "c"].
Proof. reflexivity. Qed.

Example split_trailing : split FOLDERS "vercel/nextjs?folders=" = ["vercel/nextjs"; EmptyString].
Proof. reflexivity. Qed.

Example fetch_call_plain :
  fetch_call {| context7CompatibleLibraryID := "mongodb/docs"; args_topic := Some "hooks";
                args_tokens := None |}
  = {| libraryId := Some "mongodb/docs"; tokens := of_Z 5000; topic := "hooks";
       folders := Some EmptyString |}.
Proof. reflexivity. Qed.

Lemma FOLDERS_nonempty : FOLDERS ≠ EmptyString.
Proof. discriminate. Qed.

(** C5, as amended. When the library id contains ["?folders="], the fetch
    call receives the text before the leftmost ["?folders="] as the bare
    library id, and as the folders parameter the text after it up to the next
    ["?folders="], which is all of the text after it when there is no second
    one; ["vercel/nextjs?folders=app"] is forwarded as ["vercel/nextjs"] with
    folders ["app"]. *)
Theorem folders_selector_split (args : DocsArgs) (x y : string) :
  context7CompatibleLibraryID args = x +:+ FOLDERS +:+ y →
  (∃ pre rest,
     leftmost FOLDERS pre rest (context7CompatibleLibraryID args) ∧
     libraryId (fetch_call args) = Some pre ∧
     (includes FOLDERS rest = false → folders (fetch_call args) = Some rest) ∧
     (includes FOLDERS rest = true →
        ∃ mid rest', leftmost FOLDERS mid rest' rest ∧
                     folders (fetch_call args) = Some mid)) ∧
  (∀ topic tokens,
     let call := fetch_call {| context7CompatibleLibraryID := "vercel/nextjs?folders=app";
                               args_topic := topic; args_tokens := tokens |} in
     libraryId call = Some "vercel/nextjs" ∧ folders call = Some "app").
Proof.
  intros HID. split; [| intros topic tokens; split; reflexivity].
  assert (Hinc : includes FOLDERS (context7CompatibleLibraryID args) = true)
    by (rewrite HID; apply includes_intro).
  destruct (includes_true _ _ Hinc) as (pre & rest & Hcut).
  exists pre, rest. split; [by apply cut_leftmost |].
  unfold fetch_call. rewrite Hinc. cbn [libraryId folders].
  rewrite (split_cut _ _ FOLDERS_nonempty), Hcut.
  split; [reflexivity |]. cbn [lookup list_lookup].
  rewrite (split_cut _ _ FOLDERS_nonempty). split.
  - intros Hnone. by rewrite (includes_false _ _ Hnone).
  - intros Hsome. destruct (includes_true _ _ Hsome) as (mid & rest' & Hcut').
    exists mid, rest'. split; [by apply cut_leftmost |]. by rewrite Hcut'.
Qed.

Lemma folders_selector_split_witness :
  ∃ pre rest,
    leftmost FOLDERS pre rest "mongodb/docs?folders=reference" ∧
    libraryId (fetch_call {| context7CompatibleLibraryID := "mongodb/docs?folders=reference";
                             args_topic := None; args_tokens := None |}) = Some pre.
Proof.
  destruct (folders_selector_split
              {| context7CompatibleLibraryID := "mongodb/docs?folders=reference";
                 args_topic := None; args_tokens := None |}
              "mongodb/docs" "reference" eq_refl) as [(pre & rest & Hleft & Hid & _) _].
  exists pre, rest. split; [exact Hleft | exact Hid].
Defined.

(** C5, as stated, fails on an id with a second ["?folders="]: the folders
    parameter is not the whole text after the first one. *)
Lemma folders_text_after_counterexample :
  ¬ (∀ args pre rest,
       leftmost FOLDERS pre rest (context7CompatibleLibraryID args) →
       libraryId (fetch_call args) = Some pre ∧ folders (fetch_call args) = Some rest).
Proof.
  intros Hclaim.
  destruct (Hclaim {| context7CompatibleLibraryID := "a?folders=b?folders=c";
                      args_topic := None; args_tokens := None |}
                   "a" "b?folders=c") as [_ Hfolders].
  - apply cut_leftmost. reflexivity.
  - vm_compute in Hfolders. discriminate Hfolders.
Qed.

End ToolsFacts.

(** ** The session registry and the HTTP handlers *)

Module RouterFacts.
Import Router.

(** *** Property lookup on the registry *)

Lemma get_own (registry : gmap string addr) k a :
  registry !! k = Some a → get registry k = VTransport a.
Proof. intros Hk. unfold get. by rewrite Hk. Qed.

Lemma get_absent (registry : gmap string addr) k :
  registry !! k = None → k ∉ Object_prototype → get registry k = VUndefined.
Proof. intros Hk Hproto. unfold get. rewrite Hk. by rewrite bool_decide_eq_false_2. Qed.

Lemma get_inherited (registry : gmap string addr) k :
  registry !! k = None → k ∈ Object_prototype → get registry k = VInherited k.
Proof. intros Hk Hproto. unfold get. rewrite Hk. by rewrite bool_decide_eq_true_2. Qed.

Lemma truthy_string_Some (k : string) : k ≠ EmptyString → truthy_string (Some k) = true.
Proof. by destruct k. Qed.

(** *** The POST handler *)

Lemma post_transports `{Sdk} (st : State) (req : Request) :
  transports (post st req).1 = transports st.
Proof.
  unfold post.
  destruct (truthy_string _ && truthy _); [reflexivity |].
  destruct (negb _ && isInitializeRequest _); reflexivity.
Qed.

Lemma post_reuse `{Sdk} (st : State) (req : Request) k a :
  mcp_session_id req = Some k → k ≠ EmptyString → transports st !! k = Some a →
  post st req = (st, HandleRequest a).
Proof.
  intros Hreq Hk Ha. unfold post. rewrite Hreq. cbn [property_key].
  rewrite (truthy_string_Some k Hk), (get_own _ _ _ Ha). reflexivity.
Qed.

Lemma post_reject `{Sdk} (st : State) (req : Request) k :
  mcp_session_id req = Some k →
  transports st !! k = None → k ∉ Object_prototype →
  k ≠ EmptyString ∨ isInitializeRequest (body req) = false →
  post st req = (st, Responded {| status := 400; payload := json bad_request |}).
Proof.
  intros Hreq Hk Hproto Hcase. unfold post. rewrite Hreq. cbn [property_key].
  rewrite (get_absent _ _ Hk Hproto). cbn [truthy]. rewrite andb_false_r.
  destruct Hcase as [Hne | Hbody].
  - rewrite (truthy_string_Some k Hne). reflexivity.
  - rewrite Hbody, andb_false_r. reflexivity.
Qed.

(** C1, as amended. A POST whose [mcp-session-id] header is not a key of the
    registry (and not a name inherited from [Object.prototype]), and which is
    not an initialization request with an empty header, is answered with
    status 400 and the JSON-RPC error envelope with code -32000 and the
    message "Bad Request: No valid session ID provided or not an
    initialization request."; the state, and so the registry, is unchanged. *)
Theorem post_unknown_session_rejected `{Sdk} (st : State) (req : Request) (k : string) :
  mcp_session_id req = Some k →
  transports st !! k = None →
  k ∉ Object_prototype →
  k ≠ EmptyString ∨ isInitializeRequest (body req) = false →
  post st req =
    (st, Responded
           {| status := 400;
              payload := json
                {| jsonrpc := "2.0";
                   error := {| code := -32000;
                               message := "Bad Request: No valid session ID provided or not an initialization request." |};
                   id := null |} |}).
Proof.
  intros Hreq Hk Hproto Hcase.
  assert (Hlookup : get (transports st) k = VUndefined) by by apply get_absent.
  unfold post. rewrite Hreq. cbn [property_key]. rewrite Hlookup.
  destruct Hcase as [Hne | Hbody].
  - destruct k as [|c k]; [done |]. reflexivity.
  - rewrite Hbody. destruct k as [|c k]; reflexivity.
Qed.

Lemma post_unknown_session_rejected_witness :
  @post Samples.flag_bodies initial (Samples.request (Some "stale") true) =
    (initial, Responded {| status := 400; payload := json bad_request |}).
Proof.
  apply (@post_unknown_session_rejected Samples.flag_bodies initial
           (Samples.request (Some "stale") true) "stale").
  - reflexivity.
  - reflexivity.
  - compute_done.
  - left. discriminate.
Defined.

(** C1, as stated, fails: the message of the envelope is not
    "session not found". *)
Lemma post_unknown_session_counterexample :
  ¬ (∀ (st : State) (req : @Request Samples.flag_bodies) (k : string),
       mcp_session_id req = Some k →
       transports st !! k = None →
       post st req =
         (st, Responded
                {| status := 400;
                   payload := json
                     {| jsonrpc := "2.0";
                        error := {| code := -32000; message := "session not found" |};
                        id := null |} |})).
Proof.
  intros Hclaim.
  specialize (Hclaim initial (Samples.request (Some "stale") false) "stale"
                eq_refl eq_refl).
  vm_compute in Hclaim. discriminate Hclaim.
Qed.

Example post_inherited_name :
  @post Samples.flag_bodies initial (Samples.request (Some "toString") true)
  = (initial, TypeError "toString").
Proof. reflexivity. Qed.

Example post_empty_header_creates :
  @post Samples.flag_bodies initial (Samples.request (Some EmptyString) true)
  = ({| transports := ∅; heap := {[ 0 := {| sessionId := None |} ]} |}, HandleRequest 0).
Proof. reflexivity. Qed.

Lemma post_nonempty_header `{Sdk} (st : State) (req : Request) k :
  mcp_session_id req = Some k → k ≠ EmptyString → (post st req).1 = st.
Proof.
  intros Hreq Hk. unfold post. rewrite Hreq, (truthy_string_Some k Hk).
  destruct (true && truthy _); reflexivity.
Qed.

(** C3, as amended. A POST with a non-empty [mcp-session-id] header never
    takes the create path, whatever its body: the state is unchanged, so no
    transport is constructed and the registry is untouched; the request is
    handed to the transport registered under the id, or rejected with the
    error envelope when the id is no key of the registry (and no name
    inherited from [Object.prototype]). *)
Theorem post_with_session_never_creates `{Sdk} (st : State) (req : Request) (k : string) :
  mcp_session_id req = Some k →
  k ≠ EmptyString →
  (post st req).1 = st ∧
  (∀ a, transports st !! k = Some a → (post st req).2 = HandleRequest a) ∧
  (transports st !! k = None → k ∉ Object_prototype →
     (post st req).2 = Responded {| status := 400; payload := json bad_request |}).
Proof.
  intros Hreq Hk. split; [by eapply post_nonempty_header |]. split.
  - intros a Ha. by rewrite (post_reuse st req k a).
  - intros Hnone Hproto. rewrite (post_reject st req k); auto.
Qed.

Lemma post_with_session_never_creates_witness :
  (@post Samples.flag_bodies initial (Samples.request (Some "stale") true)).1 = initial.
Proof.
  apply (@post_with_session_never_creates Samples.flag_bodies initial
           (Samples.request (Some "stale") true) "stale").
  - reflexivity.
  - discriminate.
Defined.

(** C3, as stated, fails on a header with the empty value: with an
    initialization body the create path is taken and a transport is
    constructed. *)
Lemma post_empty_header_counterexample :
  ¬ (∀ (st : State) (req : @Request Samples.flag_bodies) (k : string),
       mcp_session_id req = Some k → heap (post st req).1 = heap st).
Proof.
  intros Hclaim.
  specialize (Hclaim initial (Samples.request (Some EmptyString) true) EmptyString eq_refl).
  assert (Hnew : heap (@post Samples.flag_bodies initial
                         (Samples.request (Some EmptyString) true)).1 !! 0
                 = Some {| sessionId := None |}) by reflexivity.
  rewrite Hclaim in Hnew. discriminate Hnew.
Qed.

(** *** GET and DELETE *)

Lemma session_request_state `{Sdk} (st : State) (req : Request) :
  (handleSessionRequest st req).1 = st.
Proof. unfold handleSessionRequest. destruct (_ || _); reflexivity. Qed.

(** A GET or DELETE without the header, with an empty header, or with a
    header that is no key of the registry and no inherited name, is answered
    with status 400 and the text "Invalid or missing session ID"; no
    transport is called. *)
Lemma session_request_rejected `{Sdk} (st : State) (req : Request) :
  mcp_session_id req = None ∨ mcp_session_id req = Some EmptyString ∨
  (∃ k, mcp_session_id req = Some k ∧ transports st !! k = None ∧ k ∉ Object_prototype) →
  handleSessionRequest st req =
    (st, Responded {| status := 400; payload := send "Invalid or missing session ID" |}).
Proof.
  intros [Hreq | [Hreq | (k & Hreq & Hk & Hproto)]]; unfold handleSessionRequest;
    rewrite Hreq; try reflexivity.
  cbn [property_key]. rewrite (get_absent _ _ Hk Hproto). cbn [truthy negb].
  by rewrite orb_true_r.
Qed.

(** With a header that names an inherited property and no session of that
    name, the guard is passed and the call of [handleRequest] throws. *)
Lemma session_request_inherited `{Sdk} (st : State) (req : Request) (k : string) :
  mcp_session_id req = Some k → transports st !! k = None → k ∈ Object_prototype →
  handleSessionRequest st req = (st, TypeError k).
Proof.
  intros Hreq Hk Hproto. unfold handleSessionRequest. rewrite Hreq. cbn [property_key].
  rewrite (get_inherited _ _ Hk Hproto).
  assert (Hne : k ≠ EmptyString) by (intros ->; revert Hproto; compute_done).
  by rewrite (truthy_string_Some k Hne).
Qed.

(** C7 fails on a header that names a property the registry object inherits:
    [transports["constructor"]] is truthy, the guard lets the request through
    and the call of [handleRequest] on that value throws; no 400 is sent. *)
Theorem session_request_inherited_name :
  @handleSessionRequest Samples.flag_bodies initial (Samples.request (Some "constructor") false)
  = (initial, TypeError "constructor").
Proof. reflexivity. Qed.

(** *** The close callback *)

(** C10. The close callback changes at most the registry entry of its own
    transport: with no session id set it changes nothing; otherwise the
    registry becomes the registry without the entry of that session id,
    which is the same registry when the id was already absent; every other
    entry is as before, and no transport object changes. *)
Theorem onclose_frame (transport : addr) (st : State) :
  heap (onclose transport st) = heap st ∧
  (∀ t, heap st !! transport = Some t → truthy_string (sessionId t) = false →
        onclose transport st = st) ∧
  (∀ t s, heap st !! transport = Some t → sessionId t = Some s →
          truthy_string (Some s) = true →
          transports (onclose transport st) = delete s (transports st) ∧
          (transports st !! s = None → onclose transport st = st) ∧
          (∀ k, k ≠ s → transports (onclose transport st) !! k = transports st !! k)).
Proof.
  unfold onclose. split; [| split].
  - destruct (heap st !! transport) as [[[[|c s]|]]|]; reflexivity.
  - intros t Ht Hfalsy. rewrite Ht. destruct t as [[[|c s]|]]; done.
  - intros t s Ht Hs Htruthy. rewrite Ht. destruct t as [sid]. simpl in Hs. subst sid.
    destruct s as [|c s]; [discriminate |]. cbn [transports].
    split; [reflexivity | split].
    + intros Hnone. destruct st as [reg hp]. cbn [transports heap] in *.
      by rewrite delete_id.
    + intros k Hk. by rewrite lookup_delete_ne.
Qed.

Lemma onclose_frame_witness :
  transports (onclose 0 {| transports := {[ "s1" := 0; "s2" := 1 ]};
                           heap := {[ 0 := {| sessionId := Some "s1" |};
                                      1 := {| sessionId := Some "s2" |} ]} |})
  = delete "s1" ({[ "s1" := 0; "s2" := 1 ]} : gmap string addr).
Proof.
  destruct (onclose_frame 0 {| transports := {[ "s1" := 0; "s2" := 1 ]};
                               heap := {[ 0 := {| sessionId := Some "s1" |};
                                          1 := {| sessionId := Some "s2" |} ]} |})
    as (_ & _ & Hdelete).
  apply (Hdelete {| sessionId := Some "s1" |} "s1"); reflexivity.
Defined.

(** *** Session ids *)

Lemma matches_length (pattern s : string) :
  matches pattern s = true → String.length s = String.length pattern.
Proof.
  revert s. induction pattern as [|p pattern IH]; intros [|c s]; simpl; try discriminate.
  - reflexivity.
  - intros [_ Hrest]%andb_prop. by rewrite (IH s Hrest).
Qed.

Lemma is_uuid_length (s : string) : is_uuid s = true → String.length s = 36.
Proof. intros Hs. by rewrite (matches_length _ _ Hs). Qed.

Lemma is_uuid_nonempty (s : string) : is_uuid s = true → s ≠ EmptyString.
Proof. intros Hs%is_uuid_length ->. discriminate Hs. Qed.

Lemma is_uuid_set (s : string) (a : addr) (registry : gmap string addr) :
  is_uuid s = true → set s a registry = <[s := a]> registry.
Proof.
  intros Hs%is_uuid_length. unfold set. rewrite bool_decide_eq_false_2; [reflexivity |].
  intros ->. discriminate Hs.
Qed.

(** *** Consistency of the reachable states *)

Lemma new_transport_fresh (st : State) : heap st !! (new_transport st).1 = None.
Proof. apply not_elem_of_dom, is_fresh. Qed.

Lemma post_state `{Sdk} (st : State) (req : Request) :
  (post st req).1 = st ∨
  (post st req = ((new_transport st).2, HandleRequest (new_transport st).1) ∧
   truthy_string (mcp_session_id req) = false ∧ isInitializeRequest (body req) = true).
Proof.
  unfold post. destruct (truthy_string _ && truthy _); [by left |].
  destruct (truthy_string (mcp_session_id req)); simpl; [by left |].
  destruct (isInitializeRequest (body req)); [by right | by left].
Qed.

Lemma consistent_initial : consistent initial.
Proof. split; simpl; intros *; by rewrite lookup_empty. Qed.

Lemma consistent_new_transport (st : State) :
  consistent st → consistent (new_transport st).2.
Proof.
  intros [Hreg Hdist Huuid]. pose proof (new_transport_fresh st) as Hfresh.
  simpl in *. set (a := fresh (dom (heap st))) in *.
  split; simpl.
  - intros k b Hk. destruct (Hreg k b Hk) as (t & Hb & Ht).
    exists t. split; [| exact Ht]. rewrite lookup_insert_ne; [exact Hb | congruence].
  - intros x y tx ty s Hx Hy Hsx Hsy.
    destruct (decide (a = x)) as [<-|]; [rewrite lookup_insert_eq in Hx; by simplify_eq |].
    destruct (decide (a = y)) as [<-|]; [rewrite lookup_insert_eq in Hy; by simplify_eq |].
    rewrite lookup_insert_ne in Hx, Hy by done. eauto.
  - intros x t s Hx Hs.
    destruct (decide (a = x)) as [<-|]; [rewrite lookup_insert_eq in Hx; by simplify_eq |].
    rewrite lookup_insert_ne in Hx by done. eauto.
Qed.

Lemma consistent_session_initialized (st : State) (a : addr) (uuid : string) :
  consistent st →
  heap st !! a = Some {| sessionId := None |} → is_uuid uuid = true → unused uuid st →
  consistent (session_initialized a uuid st).
Proof.
  intros [Hreg Hdist Huuid] Ha Hu Hunused.
  unfold session_initialized, onsessioninitialized. cbn [transports heap].
  rewrite (is_uuid_set _ _ _ Hu). split; cbn [transports heap].
  - intros k b Hk. destruct (decide (uuid = k)) as [<-|Hne].
    + rewrite lookup_insert_eq in Hk. simplify_eq.
      exists {| sessionId := Some uuid |}. by rewrite lookup_insert_eq.
    + rewrite lookup_insert_ne in Hk by done.
      destruct (Hreg k b Hk) as (t & Hb & Ht). exists t. split; [| exact Ht].
      rewrite lookup_insert_ne; [exact Hb |]. intros <-. by simplify_eq.
  - intros x y tx ty s Hx Hy Hsx Hsy.
    destruct (decide (a = x)) as [<-|Hax], (decide (a = y)) as [<-|Hay]; [done | | |].
    + rewrite lookup_insert_eq in Hx. rewrite lookup_insert_ne in Hy by done.
      simplify_eq. simpl in Hsx. simplify_eq. by destruct (Hunused y ty Hy).
    + rewrite lookup_insert_eq in Hy. rewrite lookup_insert_ne in Hx by done.
      simplify_eq. simpl in Hsy. simplify_eq. by destruct (Hunused x tx Hx).
    + rewrite lookup_insert_ne in Hx, Hy by done. eauto.
  - intros x t s Hx Hs. destruct (decide (a = x)) as [<-|Hax].
    + rewrite lookup_insert_eq in Hx. simplify_eq. simpl in Hs. by simplify_eq.
    + rewrite lookup_insert_ne in Hx by done. eauto.
Qed.

Lemma consistent_onclose (st : State) (a : addr) :
  consistent st → consistent (onclose a st).
Proof.
  intros Hst. unfold onclose.
  destruct (heap st !! a) as [[[[|c s]|]]|]; try exact Hst.
  destruct Hst as [Hreg Hdist Huuid]. split; cbn [transports heap]; [| done | done].
  intros k b [_ Hk]%lookup_delete_Some. eauto.
Qed.

Lemma consistent_step `{Sdk} (st st' : State) (l : Label) :
  consistent st → step st l st' → consistent st'.
Proof.
  intros Hst Hstep. destruct Hstep as [st req | st req | st a uuid Ha Hu Hunused | st a Ha].
  - destruct (post_state st req) as [-> | [-> _]]; [exact Hst |].
    by apply consistent_new_transport.
  - by rewrite session_request_state.
  - by apply consistent_session_initialized.
  - by apply consistent_onclose.
Qed.

Lemma consistent_steps `{Sdk} (st st' : State) (ls : list Label) :
  consistent st → steps st ls st' → consistent st'.
Proof. intros Hst Hsteps. induction Hsteps; eauto using consistent_step. Qed.

Lemma consistent_reachable `{Sdk} (st : State) : reachable st → consistent st.
Proof. intros [ls Hsteps]. eapply consistent_steps, Hsteps. apply consistent_initial. Qed.

(** A registered session stays registered, with the same transport, until
    that transport is closed. *)
Lemma step_keeps_session `{Sdk} (st st' : State) (l : Label) (uuid : string) (a : addr) :
  consistent st → step st l st' → l ≠ Closed a →
  transports st !! uuid = Some a → transports st' !! uuid = Some a.
Proof.
  intros [Hreg Hdist Huuid] Hstep Hl Hentry.
  destruct (Hreg _ _ Hentry) as (ta & Ha & Hta).
  destruct Hstep as [st req | st req | st b uuid' Hb Hu Hunused | st b Hb].
  - by rewrite post_transports.
  - by rewrite session_request_state.
  - unfold session_initialized, onsessioninitialized. cbn [transports].
    rewrite (is_uuid_set _ _ _ Hu), lookup_insert_ne; [exact Hentry |].
    intros ->. by destruct (Hunused a ta Ha).
  - unfold onclose. destruct (heap st !! b) as [[[[|c s]|]]|] eqn:Hheap; try exact Hentry.
    cbn [transports]. rewrite lookup_delete_ne; [exact Hentry |].
    intros <-. apply Hl. f_equal. by eapply (Hdist b a).
Qed.

Lemma steps_keep_session `{Sdk} (st st' : State) (ls : list Label) (uuid : string) (a : addr) :
  consistent st → steps st ls st' → Closed a ∉ ls →
  transports st !! uuid = Some a → transports st' !! uuid = Some a.
Proof.
  intros Hst Hsteps. induction Hsteps as [st | st l st' ls st'' Hstep Hsteps IH];
    intros Hls Hentry; [exact Hentry |].
  apply not_elem_of_cons in Hls as [Hl Hls].
  apply IH; [by eapply consistent_step | exact Hls |].
  by eapply step_keeps_session.
Qed.

Lemma step_move `{Sdk} (st st' : State) (l : Label) : step st l st' → move st l st'.
Proof. intros Hstep. destruct Hstep; by constructor. Qed.

Lemma steps_moves `{Sdk} (st st' : State) (ls : list Label) :
  steps st ls st' → moves st ls st'.
Proof. intros Hsteps. induction Hsteps; econstructor; eauto using step_move. Qed.

(** A session keeps its registry entry through every move, whether ids
    repeat or not, except the close of its transport and a second assignment
    of its own id. *)
Lemma move_keeps_owner `{Sdk} (st st' : State) (l : Label) (uuid : string) (a : addr) :
  owns a uuid st → move st l st' →
  l ≠ Closed a → (∀ b, l ≠ Initialized b uuid) →
  owns a uuid st'.
Proof.
  intros [Hentry Hsole] Hmove Hclose Hagain.
  destruct Hmove as [st req | st req | st b uuid' Hb Hu | st b Hb].
  - split; [by rewrite post_transports |].
    destruct (post_state st req) as [-> | [-> _]]; [exact Hsole |].
    intros x t Hx Hs. cbn in Hx.
    destruct (decide (fresh (dom (heap st)) = x)) as [<-|Hne].
    + rewrite lookup_insert_eq in Hx. by simplify_eq.
    + rewrite lookup_insert_ne in Hx by done. eauto.
  - by rewrite session_request_state.
  - assert (Hne : uuid' ≠ uuid) by (intros ->; by apply (Hagain b)).
    unfold session_initialized, onsessioninitialized. split; cbn [transports heap].
    + by rewrite (is_uuid_set _ _ _ Hu), lookup_insert_ne.
    + intros x t Hx Hs. destruct (decide (b = x)) as [<-|Hbx].
      * rewrite lookup_insert_eq in Hx. simplify_eq. simpl in Hs. congruence.
      * rewrite lookup_insert_ne in Hx by done. eauto.
  - unfold onclose. destruct (heap st !! b) as [[[[|c s]|]]|] eqn:Hheap; try by split.
    split; cbn [transports heap]; [| exact Hsole].
    rewrite lookup_delete_ne; [exact Hentry |].
    intros <-. apply Hclose. f_equal. by apply (Hsole b _ Hheap).
Qed.

Lemma moves_keep_owner `{Sdk} (st st' : State) (ls : list Label) (uuid : string) (a : addr) :
  owns a uuid st → moves st ls st' →
  Closed a ∉ ls → (∀ b, Initialized b uuid ∉ ls) →
  owns a uuid st'.
Proof.
  intros Howns Hmoves. induction Hmoves as [st | st l st' ls st'' Hmove Hmoves IH];
    intros Hclose Hagain; [exact Howns |].
  apply not_elem_of_cons in Hclose as [Hl Hclose].
  apply IH; [| exact Hclose | intros b Hin; apply (Hagain b); by apply list_elem_of_further].
  eapply move_keeps_owner; [exact Howns | exact Hmove | by intros -> |].
  intros b ->. apply (Hagain b), list_elem_of_here.
Qed.

(** C2, as amended. A POST without session header whose body is an
    initialization request constructs a new transport and hands the request
    to it; once the transport is given its session id, the registry maps the
    id to that transport and a POST with that id is handed to it. When no
    transport had that id before, every later POST with that id is handed to
    the identical transport, through all moves of the server, whether other
    ids repeat or not, as long as that transport is not closed and the id is
    not given out a second time. In the runs in which [randomUUID()] never
    repeats an id, two transports with the same session id are one
    transport. *)
Theorem handshake_registers_session `{Sdk} (st : State) (req : Request) (uuid : string) :
  mcp_session_id req = None →
  isInitializeRequest (body req) = true →
  is_uuid uuid = true →
  ∃ (transport : addr) (st1 : State),
    post st req = (st1, HandleRequest transport) ∧
    heap st !! transport = None ∧
    heap st1 !! transport = Some {| sessionId := None |} ∧
    transports st1 = transports st ∧
    move st1 (Initialized transport uuid) (session_initialized transport uuid st1) ∧
    transports (session_initialized transport uuid st1) !! uuid = Some transport ∧
    (∀ req', mcp_session_id req' = Some uuid →
       post (session_initialized transport uuid st1) req'
         = (session_initialized transport uuid st1, HandleRequest transport)) ∧
    (unused uuid st →
     ∀ ls st3 req',
       moves (session_initialized transport uuid st1) ls st3 →
       Closed transport ∉ ls →
       (∀ b, Initialized b uuid ∉ ls) →
       mcp_session_id req' = Some uuid →
       post st3 req' = (st3, HandleRequest transport)) ∧
    (reachable st → unused uuid st →
     ∀ ls st3 a b ta tb s,
       steps (session_initialized transport uuid st1) ls st3 →
       heap st3 !! a = Some ta → heap st3 !! b = Some tb →
       sessionId ta = Some s → sessionId tb = Some s → a = b).
Proof.
  intros Hheader Hbody Hu.
  pose proof (new_transport_fresh st) as Hfresh.
  exists (new_transport st).1, (new_transport st).2.
  set (a := (new_transport st).1) in *. set (st1 := (new_transport st).2).
  assert (Hpost : post st req = (st1, HandleRequest a)).
  { unfold post. rewrite Hheader, Hbody. reflexivity. }
  assert (Hunbound : heap st1 !! a = Some {| sessionId := None |})
    by apply lookup_insert_eq.
  assert (Hentry : transports (session_initialized a uuid st1) !! uuid = Some a).
  { unfold session_initialized, onsessioninitialized. cbn [transports].
    rewrite (is_uuid_set _ _ _ Hu). apply lookup_insert_eq. }
  assert (Hunused1 : unused uuid st → unused uuid st1).
  { intros Hunused b t Hb. destruct (decide (a = b)) as [<-|Hne].
    - rewrite Hunbound in Hb. by simplify_eq.
    - unfold st1 in Hb. cbn in Hb. rewrite lookup_insert_ne in Hb by done. eauto. }
  split; [exact Hpost |]. split; [exact Hfresh |]. split; [exact Hunbound |].
  split; [reflexivity |]. split; [by constructor |]. split; [exact Hentry |].
  split; [| split].
  - intros req' Hreq'.
    by apply (post_reuse _ req' uuid a Hreq' (is_uuid_nonempty _ Hu)).
  - intros Hunused ls st3 req' Hmoves Hclose Hagain Hreq'.
    assert (Howns : owns a uuid (session_initialized a uuid st1)).
    { split; [exact Hentry |]. intros b t Hb Hs.
      unfold session_initialized, onsessioninitialized in Hb. cbn [heap] in Hb.
      destruct (decide (a = b)) as [Hab|Hab]; [by symmetry |].
      rewrite lookup_insert_ne in Hb by done. by destruct (Hunused1 Hunused b t Hb). }
    destruct (moves_keep_owner _ _ _ _ _ Howns Hmoves Hclose Hagain) as [Hkept _].
    by apply (post_reuse st3 req' uuid a Hreq' (is_uuid_nonempty _ Hu)).
  - intros Hreach Hunused ls st3 x y tx ty s Hsteps. apply (distinct st3).
    eapply consistent_steps; [| exact Hsteps].
    eapply consistent_step; [by apply consistent_new_transport, consistent_reachable |].
    constructor; [exact Hunbound | exact Hu | by apply Hunused1].
Qed.

Lemma handshake_registers_session_witness :
  ∃ (transport : addr) (st1 : State),
    @post Samples.flag_bodies initial (Samples.request None true)
      = (st1, HandleRequest transport) ∧
    transports (session_initialized transport Samples.sample_uuid st1)
      !! Samples.sample_uuid = Some transport.
Proof.
  destruct (@handshake_registers_session Samples.flag_bodies initial
              (Samples.request None true) Samples.sample_uuid)
    as (transport & st1 & Hpost & _ & _ & _ & _ & Hentry & _).
  - reflexivity.
  - reflexivity.
  - reflexivity.
  - exists transport, st1. split; [exact Hpost | exact Hentry].
Defined.

(** C2, as stated, fails once the session is closed: after the handshake,
    the assignment of the id and the close of the transport, a POST with
    that id is not handed to the transport but rejected. *)
Lemma handshake_reuse_counterexample :
  ¬ (∀ (st : State) (req : @Request Samples.flag_bodies) (uuid : string)
       (ls : list (@Label Samples.flag_bodies)) (st3 : State)
       (req' : @Request Samples.flag_bodies),
       mcp_session_id req = None →
       isInitializeRequest (body req) = true →
       is_uuid uuid = true →
       unused uuid st →
       moves (session_initialized (new_transport st).1 uuid (post st req).1) ls st3 →
       mcp_session_id req' = Some uuid →
       (post st3 req').2 = HandleRequest (new_transport st).1).
Proof.
  intros Hclaim.
  specialize (Hclaim initial (Samples.request None true) Samples.sample_uuid
                [Closed 0] (onclose 0 Samples.one_session)
                (Samples.request (Some Samples.sample_uuid) false)
                eq_refl eq_refl eq_refl).
  assert (Hrejected :
    (@post Samples.flag_bodies (onclose 0 Samples.one_session)
       (Samples.request (Some Samples.sample_uuid) false)).2
    = Responded {| status := 400; payload := json bad_request |}) by reflexivity.
  rewrite Hclaim in Hrejected; [discriminate Hrejected | | | reflexivity].
  - intros b t Hb. cbn [initial heap] in Hb. by rewrite lookup_empty in Hb.
  - eapply moves_cons; [| apply moves_nil].
    apply (move_closed Samples.one_session 0). by eexists.
Qed.

(** C2, as stated, also fails when an id comes a second time: index.ts does
    not check, the second transport takes over the registry entry, the two
    transports have the same session id, and a POST with that id is handed to
    the second one. *)
Lemma handshake_repeated_id_counterexample :
  ∃ (ls : list Label) (st : State),
    @moves Samples.flag_bodies initial ls st ∧
    heap st !! 0 = Some {| sessionId := Some Samples.sample_uuid |} ∧
    heap st !! 1 = Some {| sessionId := Some Samples.sample_uuid |} ∧
    @post Samples.flag_bodies st (Samples.request (Some Samples.sample_uuid) false)
      = (st, HandleRequest 1).
Proof.
  exists [Post (Samples.request None true); Initialized 0 Samples.sample_uuid;
          Post (Samples.request None true); Initialized 1 Samples.sample_uuid].
  eexists. split.
  - eapply moves_cons; [apply move_post |].
    eapply moves_cons; [apply move_initialized; reflexivity |].
    eapply moves_cons; [apply move_post |].
    eapply moves_cons; [apply move_initialized; reflexivity |].
    apply moves_nil.
  - split; [reflexivity | split; reflexivity].
Qed.

(** *** Shutdown *)

(** C8. On SIGINT and on SIGTERM the handler calls [close()] on every
    transport that is in the registry, and on nothing else, before it closes
    the server; the last thing it does is [process.exit(0)]. *)
Theorem shutdown_closes_every_transport (st : State) :
  SIGTERM st = SIGINT st ∧
  ∃ closed : list addr,
    SIGINT st = console_log "Shutting down server..."
                :: (transport_close <$> closed) ++ [server_close; process_exit 0] ∧
    (∀ a, a ∈ closed ↔ ∃ k, transports st !! k = Some a) ∧
    last (SIGINT st) = Some (process_exit 0).
Proof.
  split; [reflexivity |]. exists (Object_values (transports st)).
  split; [reflexivity | split].
  - intros a. unfold Object_values. rewrite list_elem_of_fmap. split.
    + intros ([k a'] & -> & Hin). exists k. by apply elem_of_map_to_list.
    + intros (k & Hk). exists (k, a). split; [reflexivity |].
      by apply elem_of_map_to_list.
  - unfold SIGINT, shutdown.
    change [server_close; process_exit 0] with ([server_close] ++ [process_exit 0]).
    rewrite !app_assoc. apply last_snoc.
Qed.

(** When the transports closed at shutdown run their close callbacks, the
    registry ends up empty. *)
Lemma onclose_entries (st : State) (a : addr) (k : string) (b : addr) :
  consistent st →
  transports (onclose a st) !! k = Some b ↔ transports st !! k = Some b ∧ b ≠ a.
Proof.
  intros [Hreg Hdist Huuid].
  assert (Hmine : ∀ k', transports st !! k' = Some a →
            heap st !! a = Some {| sessionId := Some k' |} ∧ k' ≠ EmptyString).
  { intros k' Hk'. destruct (Hreg _ _ Hk') as ([sid] & Ht & Hs). simpl in Hs. subst sid.
    split; [exact Ht |]. exact (is_uuid_nonempty _ (Huuid _ _ _ Ht eq_refl)). }
  unfold onclose. destruct (heap st !! a) as [[[[|c s]|]]|] eqn:Ha.
  - split; [| by intros [? _]]. intros Hk. split; [done |]. intros ->.
    destruct (Hmine _ Hk) as [Ht Hne]. congruence.
  - cbn [transports]. rewrite lookup_delete_Some. split.
    + intros [Hne Hk]. split; [done |]. intros ->.
      destruct (Hmine _ Hk) as [Ht _]. congruence.
    + intros [Hk Hne]. split; [| done]. intros <-.
      destruct (Hreg _ _ Hk) as (t & Ht & Hs). apply Hne.
      by apply (Hdist b a t {| sessionId := Some (String c s) |} (String c s)).
  - split; [| by intros [? _]]. intros Hk. split; [done |]. intros ->.
    destruct (Hmine _ Hk) as [Ht _]. congruence.
  - split; [| by intros [? _]]. intros Hk. split; [done |]. intros ->.
    destruct (Hmine _ Hk) as [Ht _]. congruence.
Qed.

Lemma close_callbacks_entries (closed : list addr) (st : State) (k : string) (b : addr) :
  consistent st →
  transports (close_callbacks closed st) !! k = Some b ↔
  transports st !! k = Some b ∧ b ∉ closed.
Proof.
  revert st. induction closed as [|a closed IH]; intros st Hst; simpl.
  - split; [intros Hk; split; [done | apply not_elem_of_nil] | by intros [? _]].
  - unfold close_callbacks in *. simpl.
    rewrite (IH (onclose a st) (consistent_onclose st a Hst)).
    rewrite (onclose_entries st a k b Hst), not_elem_of_cons. tauto.
Qed.

Lemma close_callbacks_empty_registry (st : State) :
  consistent st →
  transports (close_callbacks (Object_values (transports st)) st) = ∅.
Proof.
  intros Hst. apply map_empty. intros k.
  destruct (transports (close_callbacks _ st) !! k) as [b|] eqn:Hk; [| reflexivity].
  apply (close_callbacks_entries _ st k b Hst) in Hk as [Hk Hnot].
  exfalso. apply Hnot. unfold Object_values. apply list_elem_of_fmap.
  exists (k, b). split; [reflexivity | by apply elem_of_map_to_list].
Qed.

End RouterFacts.

(** ** More on [includes] and [split] *)

Module JsStringMore.
Import JsString JsStringFacts.

Lemma length_append (s t : string) :
  String.length (s +:+ t) = String.length s + String.length t.
Proof.
  induction s as [|c s IH]; [reflexivity |].
  rewrite append_cons. cbn [String.length]. by rewrite IH.
Qed.

Lemma includes_cons (sep : string) (c : ascii) (s : string) :
  includes sep (String c s) = startsWith sep (String c s) || includes sep s.
Proof. reflexivity. Qed.

Lemma includes_nil (sep : string) : sep ≠ EmptyString → includes sep EmptyString = false.
Proof. by destruct sep. Qed.

(** The text before the leftmost separator holds no separator. *)
Lemma leftmost_free (sep pre rest s : string) :
  sep ≠ EmptyString → leftmost sep pre rest s → includes sep pre = false.
Proof.
  intros Hsep [Hs Hmin]. destruct (includes sep pre) eqn:Hinc; [exfalso | reflexivity].
  destruct (includes_true _ _ Hinc) as (p & r & Hcut).
  destruct (cut_leftmost _ _ _ _ Hcut) as [Hpre _].
  assert (Hlen : String.length pre ≤ String.length p).
  { apply (Hmin p (r +:+ sep +:+ rest)). rewrite Hs, Hpre.
    by rewrite !append_assoc. }
  rewrite Hpre, !length_append in Hlen.
  destruct sep as [|a sep']; [done |]. cbn [String.length] in Hlen. lia.
Qed.

(** Two ways to read one text as a concatenation. *)
Lemma append_eq_append (p x s r : string) :
  p +:+ x = s +:+ r →
  (∃ q, p = s +:+ q ∧ r = q +:+ x) ∨
  (∃ d q, s = p +:+ String d q ∧ x = String d q +:+ r).
Proof.
  revert s. induction p as [|c p IH]; intros [|c' s] Heq.
  - left. exists EmptyString. by rewrite !append_nil_l in *.
  - right. exists c', s. by rewrite !append_nil_l in *.
  - left. exists (String c p). by rewrite !append_nil_l in *.
  - rewrite !append_cons in Heq. injection Heq as <- Heq.
    destruct (IH s Heq) as [(q & -> & ->) | (d & q & -> & ->)].
    + left. exists q. by rewrite append_cons.
    + right. exists d, q. by rewrite append_cons.
Qed.

Lemma elem_of_append (p : string) (d : ascii) (q : string) :
  d ∈ list_ascii_of_string (p +:+ String d q).
Proof.
  induction p as [|c p IH].
  - rewrite append_nil_l. apply list_elem_of_here.
  - rewrite append_cons. by apply list_elem_of_further.
Qed.

(** With an unbordered separator, no occurrence starts inside a text that
    does not itself start with the separator and runs on into a separator
    put after it. *)
Lemma strip_straddle (sep p rest : string) (c : ascii) :
  unbordered sep →
  startsWith sep (String c p) = false →
  strip sep (String c p +:+ sep +:+ rest) = None.
Proof.
  intros Hsep Hstart.
  destruct (strip sep (String c p +:+ sep +:+ rest)) as [r|] eqn:Hstrip; [| reflexivity].
  exfalso. apply strip_Some in Hstrip.
  destruct (append_eq_append _ _ _ _ Hstrip) as [(q & Hp & _) | (d & q & Hs & Hx)].
  - unfold startsWith in Hstart. by rewrite (proj2 (strip_Some sep _ q) Hp) in Hstart.
  - destruct sep as [|a sep']; [done |]. rewrite !append_cons in *.
    injection Hs as -> ->. injection Hx as <- _.
    apply Hsep, elem_of_append.
Qed.

Lemma cut_append (sep pre rest : string) :
  unbordered sep →
  includes sep pre = false →
  cut sep (pre +:+ sep +:+ rest) = Some (pre, rest).
Proof.
  intros Hsep. induction pre as [|c pre IH]; intros Hfree.
  - rewrite append_nil_l. destruct sep as [|a sep']; [done |].
    rewrite append_cons. cbn [cut]. rewrite <- append_cons.
    by rewrite (proj2 (strip_Some (String a sep') _ rest) eq_refl).
  - rewrite includes_cons in Hfree. apply orb_false_elim in Hfree as [Hstart Hfree].
    pose proof (strip_straddle sep pre rest c Hsep Hstart) as Hnone.
    rewrite append_cons in *. cbn [cut]. rewrite Hnone, (IH Hfree). reflexivity.
Qed.

Lemma split_free (sep s : string) :
  sep ≠ EmptyString → includes sep s = false → split sep s = [s].
Proof. intros Hsep Hfree. by rewrite (split_cut _ _ Hsep), (includes_false _ _ Hfree). Qed.

End JsStringMore.

(** ** More on the tool layer *)

Module ToolsMore.
Import JsNumber JsString Tools JsNumberFacts JsStringFacts JsStringMore ToolsFacts.

Lemma split_nonempty (sep s : string) : sep ≠ EmptyString → split sep s ≠ [].
Proof.
  intros Hsep. rewrite (split_cut _ _ Hsep). by destruct (cut sep s) as [[pre rest]|].
Qed.

Lemma join_cons (sep piece : string) (pieces : list string) :
  pieces ≠ [] → join sep (piece :: pieces) = piece +:+ sep +:+ join sep pieces.
Proof. by destruct pieces. Qed.

Lemma split_join_bounded (sep : string) (n : nat) (s : string) :
  sep ≠ EmptyString → String.length s ≤ n →
  join sep (split sep s) = s ∧ Forall (λ piece, includes sep piece = false) (split sep s).
Proof.
  intros Hsep. revert s. induction n as [|n IH]; intros s Hlen;
    rewrite (split_cut _ _ Hsep); destruct (cut sep s) as [[pre rest]|] eqn:Hcut.
  - exfalso. destruct (cut_leftmost _ _ _ _ Hcut) as [-> _].
    rewrite !length_append in Hlen. destruct sep; [done | cbn [String.length] in Hlen; lia].
  - split; [reflexivity |]. apply Forall_singleton.
    rewrite includes_cut, Hcut. apply bool_decide_eq_false_2. by intros [? ?].
  - pose proof (cut_leftmost _ _ _ _ Hcut) as Hleft. destruct (Hleft) as [Hs _].
    assert (Hrest : String.length rest ≤ n).
    { rewrite Hs, !length_append in Hlen.
      destruct sep; [done | cbn [String.length] in Hlen; lia]. }
    destruct (IH rest Hrest) as [Hjoin Hfree]. split.
    + rewrite (join_cons _ _ _ (split_nonempty sep rest Hsep)), Hjoin. by rewrite Hs.
    + apply Forall_cons. split; [by eapply leftmost_free | exact Hfree].
  - split; [reflexivity |]. apply Forall_singleton.
    rewrite includes_cut, Hcut. apply bool_decide_eq_false_2. by intros [? ?].
Qed.

(** Splitting loses nothing: the pieces of [s.split(sep)], joined with
    [sep], are [s] again, and no piece holds the separator. *)
Theorem join_split (sep s : string) :
  sep ≠ EmptyString →
  join sep (split sep s) = s ∧
  Forall (λ piece, includes sep piece = false) (split sep s).
Proof. intros Hsep. by apply (split_join_bounded sep (String.length s)). Qed.

Lemma join_split_witness :
  join FOLDERS (split FOLDERS "a?folders=b?folders=c") = "a?folders=b?folders=c".
Proof. apply (join_split FOLDERS "a?folders=b?folders=c"). discriminate. Defined.

(** Separator-free pieces come back from a split of their join, when
    the separator cannot overlap itself. *)
Theorem split_join (sep : string) (pieces : list string) :
  unbordered sep →
  pieces ≠ [] →
  Forall (λ piece, includes sep piece = false) pieces →
  split sep (join sep pieces) = pieces.
Proof.
  intros Hsep Hne Hfree.
  assert (Hsep' : sep ≠ EmptyString) by (by destruct sep).
  induction pieces as [|piece pieces IH]; [done |].
  apply Forall_cons in Hfree as [Hpiece Hfree].
  destruct pieces as [|piece' pieces]; [by apply split_free |].
  rewrite join_cons by done. rewrite (split_cut _ _ Hsep'), (cut_append _ _ _ Hsep Hpiece).
  by rewrite IH.
Qed.

Lemma FOLDERS_unbordered : unbordered FOLDERS.
Proof. compute_done. Qed.

Lemma split_join_witness :
  split FOLDERS (join FOLDERS ["vercel/nextjs"; "app"; "pages"])
  = ["vercel/nextjs"; "app"; "pages"].
Proof.
  apply (split_join FOLDERS ["vercel/nextjs"; "app"; "pages"]).
  - compute_done.
  - discriminate.
  - repeat constructor.
Defined.

(** X1. A bare library id and a folder selector, neither holding
    ["?folders="], written as [id?folders=selector], are forwarded to the
    fetch as exactly that id and that selector. *)
Theorem folders_round_trip (id selector : string) (topic : option string)
    (tokens : option number) :
  includes FOLDERS id = false →
  includes FOLDERS selector = false →
  fetch_call {| context7CompatibleLibraryID := id +:+ FOLDERS +:+ selector;
                args_topic := topic; args_tokens := tokens |}
  = {| libraryId := Some id;
       tokens := default DEFAULT_MINIMUM_TOKENS tokens;
       topic := default EmptyString topic;
       folders := Some selector |}.
Proof.
  intros Hid Hsel. unfold fetch_call. cbn [context7CompatibleLibraryID args_topic args_tokens].
  rewrite includes_intro, (split_cut _ _ FOLDERS_nonempty).
  rewrite (cut_append _ _ _ FOLDERS_unbordered Hid).
  by rewrite (split_free _ _ FOLDERS_nonempty Hsel).
Qed.

Lemma folders_round_trip_witness :
  fetch_call {| context7CompatibleLibraryID := "mongodb/docs" +:+ FOLDERS +:+ "reference";
                args_topic := Some "aggregation"; args_tokens := None |}
  = {| libraryId := Some "mongodb/docs"; tokens := DEFAULT_MINIMUM_TOKENS;
       topic := "aggregation"; folders := Some "reference" |}.
Proof.
  apply (folders_round_trip "mongodb/docs" "reference" (Some "aggregation") None);
    reflexivity.
Defined.

(** X2. Whatever the library id, the fetch is called with a defined library
    id and a defined folders parameter, and neither holds ["?folders="]; an
    id without ["?folders="] is forwarded unchanged, with empty folders. *)
Theorem fetch_call_arguments (args : DocsArgs) :
  ∃ id selector,
    libraryId (fetch_call args) = Some id ∧
    folders (fetch_call args) = Some selector ∧
    includes FOLDERS id = false ∧
    includes FOLDERS selector = false ∧
    (includes FOLDERS (context7CompatibleLibraryID args) = false →
       id = context7CompatibleLibraryID args ∧ selector = EmptyString).
Proof.
  unfold fetch_call.
  destruct (includes FOLDERS (context7CompatibleLibraryID args)) eqn:Hinc.
  - destruct (includes_true _ _ Hinc) as (pre & rest & Hcut).
    cbn [libraryId folders]. rewrite (split_cut _ _ FOLDERS_nonempty), Hcut.
    destruct (split_join_bounded FOLDERS _ rest FOLDERS_nonempty (le_n _)) as [_ Hfree].
    pose proof (split_nonempty FOLDERS rest FOLDERS_nonempty) as Hne.
    destruct (split FOLDERS rest) as [|selector pieces]; [done |].
    apply Forall_cons in Hfree as [Hsel _].
    exists pre, selector. repeat split; try done.
    eapply leftmost_free; [exact FOLDERS_nonempty | by apply cut_leftmost].
  - exists (context7CompatibleLibraryID args), EmptyString. by repeat split.
Qed.

(** *** The [tokens] schema *)

Lemma transform_floor (n : number) :
  isNaN n = false →
  isNaN (transform n) = false ∧ ge (transform n) DEFAULT_MINIMUM_TOKENS = true.
Proof.
  intros Hn. unfold transform. destruct (lt n DEFAULT_MINIMUM_TOKENS) eqn:Hlt.
  - split; reflexivity.
  - split; [exact Hn |].
    destruct (lt_or_ge n DEFAULT_MINIMUM_TOKENS Hn eq_refl) as [Hlt' | Hge]; congruence.
Qed.

(** X3. Whatever the raw [tokens] argument (a number, a string, or none),
    when the handler runs, the token count it gives to the fetch is a number
    (not NaN) that is at least 5000. *)
Theorem forwarded_tokens_floor `{Host} (id : string) (topic : option string)
    (raw : JsValue) (v : number) :
  forwarded_tokens id topic raw = Some v →
  isNaN v = false ∧ ge v (of_Z 5000) = true.
Proof.
  unfold forwarded_tokens, parse_args, tokens_schema.
  destruct raw as [| | b | n | s |]; simpl; try discriminate.
  - rewrite tokens_fetch_call. intros [= <-]. by split.
  - destruct (isNaN n) eqn:Hn; simpl; [discriminate |].
    rewrite tokens_fetch_call. intros [= <-]. by apply transform_floor.
  - destruct (isNaN (Number s)) eqn:Hn; simpl; [discriminate |].
    rewrite tokens_fetch_call. intros [= <-]. by apply transform_floor.
Qed.

Lemma forwarded_tokens_floor_witness :
  @forwarded_tokens Samples.empty_upstream "vercel/nextjs" None (JsString "7")
    = Some (of_Z 5000) ∧
  isNaN (of_Z 5000) = false ∧ ge (of_Z 5000) (of_Z 5000) = true.
Proof.
  split; [reflexivity |].
  apply (@forwarded_tokens_floor Samples.empty_upstream "vercel/nextjs" None
           (JsString "7") (of_Z 5000)).
  reflexivity.
Defined.

(** X4. Validation refuses the [tokens] argument, and the handler is not
    called, exactly for [null], a boolean, an object or array, the number
    NaN, and a string that [Number] turns into NaN; an omitted argument and
    every other number or string are accepted. *)
Theorem tokens_rejected_iff `{Host} (id : string) (topic : option string) (raw : JsValue) :
  forwarded_tokens id topic raw = None ↔
  match raw with
  | JsUndefined => False
  | JsNull | JsBoolean _ | JsObject => True
  | JsNumber n => isNaN n = true
  | JsString s => isNaN (Number s) = true
  end.
Proof.
  unfold forwarded_tokens, parse_args, tokens_schema.
  destruct raw as [| | b | n | s |]; simpl; try (split; done).
  - destruct (isNaN n); simpl; split; done.
  - destruct (isNaN (Number s)); simpl; split; done.
Qed.

(** *** The results of the two tools *)

Lemma append_nonempty (s t : string) : s ≠ EmptyString → s +:+ t ≠ EmptyString.
Proof. destruct s as [|c s]; [done |]. by rewrite append_cons. Qed.

(** X5. [get-library-docs] always returns one text item, never an empty
    text: the documentation as fetched when the fetch gives a non-empty
    text, the not-found message otherwise. *)
Theorem get_library_docs_result `{Host} (args : DocsArgs) :
  ∃ s,
    get_library_docs args = {| content := [ {| type := "text"; text := s |} ] |} ∧
    s ≠ EmptyString ∧
    (fetchLibraryDocumentation (fetch_call args) = Some s ∨ s = DOCS_NOT_FOUND) ∧
    (∀ d, fetchLibraryDocumentation (fetch_call args) = Some d → d ≠ EmptyString → s = d).
Proof.
  unfold get_library_docs.
  destruct (fetchLibraryDocumentation (fetch_call args)) as [[|c d]|].
  - exists DOCS_NOT_FOUND. repeat split; [done | by right | by intros d [= <-]].
  - exists (String c d). repeat split; [done | by left | by intros d' [= <-]].
  - exists DOCS_NOT_FOUND. repeat split; [done | by right | done].
Qed.

(** X6. [resolve-library-id] always returns one text item, never an empty
    text; when the search has results, the text is the heading
    "Available libraries and their Context7-compatible library IDs:",
    an empty line, and the formatted results. *)
Theorem resolve_library_id_result `{Host} (libraryName : string) :
  ∃ s,
    resolve_library_id libraryName
      = {| content := [ {| type := "text"; text := s |} ] |} ∧
    s ≠ EmptyString ∧
    (∀ r x xs, searchLibraries libraryName = Some r → results r = Some (x :: xs) →
       s = "Available libraries and their Context7-compatible library IDs:" +:+
           String (ascii_of_nat 10) (String (ascii_of_nat 10) (formatSearchResults r))).
Proof.
  unfold resolve_library_id.
  destruct (searchLibraries libraryName) as [r|]; [destruct (results r) as [[|x xs]|] eqn:Hr |].
  - exists NO_LIBRARIES. repeat split; [done |]. intros r' x xs [= <-]. congruence.
  - exists (AVAILABLE +:+ formatSearchResults r). repeat split.
    + by apply append_nonempty.
    + intros r' x' xs' [= <-] _. unfold AVAILABLE. by rewrite !append_assoc.
  - exists SEARCH_FAILED. repeat split; [done |]. intros r' x xs [= <-]. congruence.
  - exists SEARCH_FAILED. repeat split; [done |]. intros r x xs Hr. discriminate Hr.
Qed.

End ToolsMore.

(** ** More on the session registry and the HTTP handlers *)

Module RouterMore.
Import Router RouterFacts.

Lemma get_VTransport (registry : gmap string addr) (k : string) (a : addr) :
  get registry k = VTransport a ↔ registry !! k = Some a.
Proof.
  unfold get. destruct (registry !! k) as [b|].
  - split; congruence.
  - destruct (bool_decide _); split; discriminate.
Qed.

Lemma is_uuid_not_inherited (k : string) : is_uuid k = true → k ∉ Object_prototype.
Proof.
  intros Hk%is_uuid_length Hin. unfold Object_prototype in Hin.
  repeat (apply elem_of_cons in Hin as [-> | Hin]; [discriminate Hk |]).
  by apply elem_of_nil in Hin.
Qed.

(** *** The POST handler *)

(** X7. The POST handler answers by itself only to reject: the answer is
    then the 400 error envelope and the state is unchanged. It does so
    exactly when there is no usable header and the body is not an
    initialization request, or when the header is non-empty and
    [transports[sessionId]] is undefined. *)
Theorem post_responds_iff `{Sdk} (st : State) (req : Request) :
  (∀ r, (post st req).2 = Responded r →
        r = {| status := 400; payload := json bad_request |} ∧ (post st req).1 = st) ∧
  ((∃ r, (post st req).2 = Responded r) ↔
   (truthy_string (mcp_session_id req) = false ∧ isInitializeRequest (body req) = false) ∨
   (truthy_string (mcp_session_id req) = true ∧
    get (transports st) (property_key (mcp_session_id req)) = VUndefined)).
Proof.
  unfold post.
  destruct (truthy_string (mcp_session_id req)) eqn:Hheader;
    [destruct (get (transports st) (property_key (mcp_session_id req))) as [|a|name] eqn:Hget |
     destruct (isInitializeRequest (body req)) eqn:Hbody]; simpl.
  - split; [by intros r [= <-] |]. split; [by right | eauto].
  - split; [done |]. split; [by intros [r ?] | by intros [[? _] | [_ ?]]].
  - split; [done |]. split; [by intros [r ?] | by intros [[? _] | [_ ?]]].
  - split; [done |]. split; [by intros [r ?] | by intros [[_ ?] | [? _]]].
  - split; [by intros r [= <-] |]. split; [by left | eauto].
Qed.

(** X8. Up to the point where it hands the request to
    [transport.handleRequest], the POST handler constructs a transport
    exactly when there is no usable header and the body is an initialization
    request; the transport is then a new one, without session id, the request
    is handed to it, and the registry is still as before (only
    [onsessioninitialized] registers the transport); no transport that
    exists is changed. *)
Theorem post_creates_iff `{Sdk} (st : State) (req : Request) :
  (∀ a t, heap st !! a = Some t → heap (post st req).1 !! a = Some t) ∧
  ((post st req).1 ≠ st ↔
   truthy_string (mcp_session_id req) = false ∧ isInitializeRequest (body req) = true) ∧
  ((post st req).1 ≠ st →
   ∃ a, heap st !! a = None ∧
        post st req = ({| transports := transports st;
                          heap := <[a := {| sessionId := None |}]> (heap st) |},
                       HandleRequest a)).
Proof.
  pose proof (new_transport_fresh st) as Hfresh.
  assert (Hnew : (new_transport st).2 ≠ st).
  { intros Heq. apply (f_equal heap) in Heq. cbn in *.
    apply (f_equal (lookup (fresh (dom (heap st))))) in Heq.
    rewrite lookup_insert_eq, Hfresh in Heq. discriminate Heq. }
  destruct (post_state st req) as [Hsame | (Hpost & Hheader & Hbody)].
  - rewrite Hsame. split; [done |]. split; [| done]. split; [done |].
    intros [Hheader Hbody]. exfalso. revert Hsame. unfold post.
    rewrite Hheader, Hbody. exact Hnew.
  - rewrite Hpost. cbn [fst snd]. split; [| split; [by split | ]].
    + intros a t Ha. cbn in Hfresh |- *.
      rewrite lookup_insert_ne; [exact Ha | intros <-; congruence].
    + intros _. by exists (new_transport st).1.
Qed.

(** *** GET and DELETE *)

Lemma session_request_handled `{Sdk} (st : State) (req : Request) (a : addr) :
  (handleSessionRequest st req).2 = HandleRequest a ↔
  ∃ k, mcp_session_id req = Some k ∧ k ≠ EmptyString ∧ transports st !! k = Some a.
Proof.
  unfold handleSessionRequest.
  destruct (mcp_session_id req) as [[|c k]|]; cbn [truthy_string negb orb property_key].
  - split; [done | by intros (k & [= <-] & ? & _)].
  - destruct (get (transports st) (String c k)) as [|b|name] eqn:Hget; cbn.
    + split; [done |]. intros (k' & [= <-] & _ & Hk).
      apply get_VTransport in Hk. congruence.
    + apply get_VTransport in Hget. split.
      * intros [= <-]. by exists (String c k).
      * intros (k' & [= <-] & _ & Hk). congruence.
    + split; [done |]. intros (k' & [= <-] & _ & Hk).
      apply get_VTransport in Hk. congruence.
  - split; [done | by intros (k & ? & _)].
Qed.

Lemma post_handled `{Sdk} (st : State) (req : Request) (k : string) (a : addr) :
  mcp_session_id req = Some k → k ≠ EmptyString →
  (post st req).2 = HandleRequest a → transports st !! k = Some a.
Proof.
  intros Hreq Hk. unfold post. rewrite Hreq, (truthy_string_Some k Hk).
  cbn [property_key andb negb].
  destruct (get (transports st) k) as [|b|name] eqn:Hget; cbn; try done.
  intros [= <-]. by apply get_VTransport.
Qed.

(** X9. The GET and DELETE handler hands the request to a transport exactly
    when the header is a non-empty key of the registry, and then to the
    transport registered under it; with a non-empty header, a POST is handed
    to a transport exactly when a GET or DELETE with that header is, and to
    the same one. *)
Theorem session_request_routes `{Sdk} (st : State) (req : Request) :
  (∀ a, (handleSessionRequest st req).2 = HandleRequest a ↔
        ∃ k, mcp_session_id req = Some k ∧ k ≠ EmptyString ∧ transports st !! k = Some a) ∧
  (∀ a req' k, mcp_session_id req = Some k → mcp_session_id req' = Some k →
        k ≠ EmptyString →
        ((post st req').2 = HandleRequest a ↔
         (handleSessionRequest st req).2 = HandleRequest a)).
Proof.
  split; [intros a; apply session_request_handled |].
  intros a req' k Hreq Hreq' Hk. rewrite session_request_handled. split.
  - intros Hpost. exists k. split; [exact Hreq | split; [exact Hk |]].
    by apply (post_handled st req' k a).
  - intros (k' & Hk' & _ & Ha). assert (k' = k) as -> by congruence.
    by rewrite (post_reuse st req' k a).
Qed.

(** *** Reachable states *)

Lemma one_session_reachable : @reachable Samples.flag_bodies Samples.one_session.
Proof.
  exists [Post (Samples.request None true); Initialized 0 Samples.sample_uuid].
  eapply steps_cons; [apply step_post |].
  eapply steps_cons; [| apply steps_nil].
  apply step_initialized; [reflexivity | reflexivity |].
  intros b t Hb Hs.
  change (({[ 0 := {| sessionId := None |} ]} : gmap addr Transport) !! b = Some t) in Hb.
  apply lookup_singleton_Some in Hb as [_ <-]. discriminate Hs.
Qed.

Lemma one_session_entry :
  transports Samples.one_session !! Samples.sample_uuid = Some 0.
Proof. reflexivity. Qed.

(** X10. In every state the server can reach, every key of the registry is
    a UUID (so never a name inherited from [Object.prototype]) and its
    transport has exactly that key as session id; no transport is registered
    under two keys. *)
Theorem reachable_registry_invariant `{Sdk} (st : State) :
  reachable st →
  (∀ k a, transports st !! k = Some a →
     is_uuid k = true ∧ (k ∉ Object_prototype) ∧
     heap st !! a = Some {| sessionId := Some k |}) ∧
  (∀ k1 k2 a, transports st !! k1 = Some a → transports st !! k2 = Some a → k1 = k2).
Proof.
  intros [Hreg Hdist Huuid]%consistent_reachable.
  assert (Hentry : ∀ k a, transports st !! k = Some a →
            heap st !! a = Some {| sessionId := Some k |}).
  { intros k a Hk. destruct (Hreg k a Hk) as ([sid] & Ha & Hs). simpl in Hs. by subst sid. }
  split.
  - intros k a Hk. pose proof (Hentry k a Hk) as Ha.
    pose proof (Huuid _ _ _ Ha eq_refl) as Hu.
    split; [exact Hu | split; [by apply is_uuid_not_inherited | exact Ha]].
  - intros k1 k2 a Hk1%Hentry Hk2%Hentry. congruence.
Qed.

Lemma reachable_registry_invariant_witness :
  is_uuid Samples.sample_uuid = true ∧ (Samples.sample_uuid ∉ Object_prototype) ∧
  heap Samples.one_session !! 0 = Some {| sessionId := Some Samples.sample_uuid |}.
Proof.
  destruct (@reachable_registry_invariant Samples.flag_bodies Samples.one_session
              one_session_reachable) as [Hentry _].
  apply (Hentry Samples.sample_uuid 0). reflexivity.
Defined.

(** X11. In every state the server can reach, a POST, GET or DELETE with a
    non-empty session header is only ever handed to a transport whose own
    session id is the header value. *)
Theorem routed_to_own_session `{Sdk} (st : State) (req : Request) (k : string) (a : addr) :
  reachable st →
  mcp_session_id req = Some k →
  k ≠ EmptyString →
  (post st req).2 = HandleRequest a ∨ (handleSessionRequest st req).2 = HandleRequest a →
  heap st !! a = Some {| sessionId := Some k |}.
Proof.
  intros Hreach Hreq Hk Hhandled.
  destruct (consistent_reachable st Hreach) as [Hreg _ _].
  assert (Ha : transports st !! k = Some a).
  { destruct Hhandled as [Hpost | Hsession].
    - by eapply post_handled.
    - apply session_request_handled in Hsession as (k' & Hk' & _ & Ha). congruence. }
  destruct (Hreg k a Ha) as ([sid] & Hheap & Hs). simpl in Hs. by subst sid.
Qed.

Lemma routed_to_own_session_witness :
  heap Samples.one_session !! 0 = Some {| sessionId := Some Samples.sample_uuid |}.
Proof.
  apply (@routed_to_own_session Samples.flag_bodies Samples.one_session
           (Samples.request (Some Samples.sample_uuid) false) Samples.sample_uuid 0).
  - exact one_session_reachable.
  - reflexivity.
  - discriminate.
  - left. reflexivity.
Defined.

(** X12. A session that is opened and then closed leaves no trace in the
    registry: after the handshake, the assignment of the id and the close
    callback of that transport, the registry is what it was before the
    handshake, and a POST, GET or DELETE with that id is answered with
    status 400. *)
Theorem session_round_trip `{Sdk} (st : State) (req : Request) (uuid : string) :
  reachable st →
  mcp_session_id req = None →
  isInitializeRequest (body req) = true →
  is_uuid uuid = true →
  unused uuid st →
  ∃ (a : addr) (st1 : State),
    post st req = (st1, HandleRequest a) ∧
    transports (onclose a (session_initialized a uuid st1)) = transports st ∧
    ∀ req', mcp_session_id req' = Some uuid →
      post (onclose a (session_initialized a uuid st1)) req'
        = (onclose a (session_initialized a uuid st1),
           Responded {| status := 400; payload := json bad_request |}) ∧
      handleSessionRequest (onclose a (session_initialized a uuid st1)) req'
        = (onclose a (session_initialized a uuid st1),
           Responded {| status := 400; payload := send "Invalid or missing session ID" |}).
Proof.
  intros Hreach Hheader Hbody Hu Hunused.
  destruct (consistent_reachable st Hreach) as [Hreg _ _].
  exists (new_transport st).1, (new_transport st).2.
  assert (Hpost : post st req = ((new_transport st).2, HandleRequest (new_transport st).1)).
  { unfold post. rewrite Hheader, Hbody. reflexivity. }
  assert (Habsent : transports st !! uuid = None).
  { destruct (transports st !! uuid) as [b|] eqn:Hb; [| reflexivity].
    destruct (Hreg _ _ Hb) as (t & Ht & Hs). by destruct (Hunused b t Ht). }
  assert (Hclosed : transports (onclose (new_transport st).1
            (session_initialized (new_transport st).1 uuid (new_transport st).2))
          = transports st).
  { unfold onclose, session_initialized, onsessioninitialized. cbn [heap transports].
    rewrite lookup_insert_eq, (is_uuid_set _ _ _ Hu).
    pose proof (is_uuid_nonempty _ Hu) as Hne. destruct uuid as [|c u]; [done |].
    cbn [transports fst snd new_transport].
    by rewrite delete_insert_eq, delete_id. }
  split; [exact Hpost | split; [exact Hclosed |]].
  intros req' Hreq'. split.
  - apply (post_reject _ req' uuid Hreq').
    + by rewrite Hclosed.
    + by apply is_uuid_not_inherited.
    + left. by apply is_uuid_nonempty.
  - apply session_request_rejected. right. right. exists uuid.
    split; [exact Hreq' | split; [by rewrite Hclosed | by apply is_uuid_not_inherited]].
Qed.

Lemma session_round_trip_witness :
  ∃ (a : addr) (st1 : State),
    @post Samples.flag_bodies initial (Samples.request None true) = (st1, HandleRequest a) ∧
    transports (onclose a (session_initialized a Samples.sample_uuid st1)) = ∅.
Proof.
  destruct (@session_round_trip Samples.flag_bodies initial (Samples.request None true)
              Samples.sample_uuid) as (a & st1 & Hpost & Hclosed & _).
  - exists []. constructor.
  - reflexivity.
  - reflexivity.
  - reflexivity.
  - intros b t Hb. cbn [initial heap] in Hb. by rewrite lookup_empty in Hb.
  - exists a, st1. split; [exact Hpost | exact Hclosed].
Defined.

(** *** The callbacks *)

Lemma close_callbacks_heap (closed : list addr) (st : State) :
  heap (close_callbacks closed st) = heap st.
Proof.
  revert st. induction closed as [|a closed IH]; intros st; [reflexivity |].
  unfold close_callbacks in *. simpl. rewrite IH.
  unfold onclose. by destruct (heap st !! a) as [[[[|c s]|]]|].
Qed.

Lemma onclose_idempotent (a : addr) (st : State) :
  onclose a (onclose a st) = onclose a st.
Proof.
  unfold onclose. destruct (heap st !! a) as [[[[|c s]|]]|] eqn:Ha;
    cbn [heap]; rewrite ?Ha; try reflexivity.
  cbn [transports]. by rewrite delete_delete_eq.
Qed.

Lemma onclose_commute (a b : addr) (st : State) :
  onclose a (onclose b st) = onclose b (onclose a st).
Proof.
  unfold onclose.
  destruct (heap st !! a) as [[[[|c s]|]]|] eqn:Ha,
           (heap st !! b) as [[[[|c' s']|]]|] eqn:Hb;
    cbn [heap]; rewrite ?Ha, ?Hb; try reflexivity.
  cbn [transports heap]. by rewrite delete_delete.
Qed.

(** X13. The close callback can run twice, and the close callbacks of two
    transports can run in either order, with the same result; so the state
    after the shutdown sweep does not depend on the order in which
    [Object.values] lists the transports. *)
Theorem close_order_irrelevant (st : State) :
  (∀ a, onclose a (onclose a st) = onclose a st) ∧
  (∀ a b, onclose a (onclose b st) = onclose b (onclose a st)) ∧
  (∀ closed closed', closed ≡ₚ closed' →
     close_callbacks closed st = close_callbacks closed' st).
Proof.
  split; [intros a; apply onclose_idempotent |].
  split; [intros a b; apply onclose_commute |].
  intros closed closed' Hperm. revert st.
  induction Hperm as [| a l l' _ IH | a b l | l l' l'' _ IH1 _ IH2]; intros st.
  - reflexivity.
  - unfold close_callbacks in *. simpl. apply IH.
  - unfold close_callbacks. simpl. by rewrite onclose_commute.
  - by rewrite IH1.
Qed.

Lemma close_order_irrelevant_witness :
  close_callbacks [0; 1] Samples.one_session = close_callbacks [1; 0] Samples.one_session.
Proof.
  destruct (close_order_irrelevant Samples.one_session) as (_ & _ & Hperm).
  apply Hperm. apply perm_swap.
Defined.

(** X14. In every state the server can reach, once the close callbacks of
    the transports closed by the signal handler have run, the registry is
    empty; the same holds for any list of closed transports that covers the
    registry. No transport object is changed. *)
Theorem shutdown_empties_registry `{Sdk} (st : State) :
  reachable st →
  transports (close_callbacks (Object_values (transports st)) st) = ∅ ∧
  heap (close_callbacks (Object_values (transports st)) st) = heap st ∧
  (∀ closed, (∀ k a, transports st !! k = Some a → a ∈ closed) →
     transports (close_callbacks closed st) = ∅).
Proof.
  intros Hst%consistent_reachable.
  split; [by apply close_callbacks_empty_registry |].
  split; [apply close_callbacks_heap |].
  intros closed Hcover. apply map_empty. intros k.
  destruct (transports (close_callbacks closed st) !! k) as [b|] eqn:Hk; [| reflexivity].
  apply (close_callbacks_entries _ st k b Hst) in Hk as [Hk Hnot].
  by destruct (Hnot (Hcover k b Hk)).
Qed.

Lemma shutdown_empties_registry_witness :
  transports (close_callbacks (Object_values (transports Samples.one_session))
                Samples.one_session) = ∅.
Proof.
  destruct (@shutdown_empties_registry Samples.flag_bodies Samples.one_session
              one_session_reachable) as [Hempty _].
  exact Hempty.
Defined.

Lemma get_insert (registry : gmap string addr) (k k' : string) (a : addr) :
  get (<[k := a]> registry) k' = if decide (k = k') then VTransport a else get registry k'.
Proof.
  unfold get. rewrite lookup_insert. by destruct (decide (k = k')).
Qed.

(** X15. [onsessioninitialized] changes one registry entry and nothing
    else: afterwards [transports[newSessionId]] is the transport, also when
    the id was registered before or names an inherited property; every other
    lookup is as before; no transport object changes; and a POST with that
    id in the header is handed to the transport. *)
Theorem onsessioninitialized_frame `{Sdk} (transport : addr) (newSessionId : string)
    (st : State) :
  newSessionId ≠ "__proto__" →
  heap (onsessioninitialized transport newSessionId st) = heap st ∧
  get (transports (onsessioninitialized transport newSessionId st)) newSessionId
    = VTransport transport ∧
  (∀ k, k ≠ newSessionId →
     get (transports (onsessioninitialized transport newSessionId st)) k
       = get (transports st) k) ∧
  (∀ other,
     onsessioninitialized transport newSessionId
       (onsessioninitialized other newSessionId st)
     = onsessioninitialized transport newSessionId st) ∧
  (newSessionId ≠ EmptyString →
   ∀ req, mcp_session_id req = Some newSessionId →
     post (onsessioninitialized transport newSessionId st) req
       = (onsessioninitialized transport newSessionId st, HandleRequest transport)).
Proof.
  intros Hproto.
  assert (Hset : ∀ registry a, set newSessionId a registry = <[newSessionId := a]> registry).
  { intros registry a. unfold set. by rewrite bool_decide_eq_false_2. }
  unfold onsessioninitialized. cbn [transports heap]. rewrite !Hset.
  split; [reflexivity |]. split; [| split; [| split]].
  - rewrite get_insert. by rewrite decide_True.
  - intros k Hk. rewrite get_insert. by rewrite decide_False.
  - intros other. cbn [transports heap]. by rewrite ?Hset, insert_insert_eq.
  - intros Hne req Hreq. apply (post_reuse _ req newSessionId transport Hreq Hne).
    cbn [transports]. apply lookup_insert_eq.
Qed.

Lemma onsessioninitialized_frame_witness :
  get (transports (onsessioninitialized 7 "toString" initial)) "toString" = VTransport 7.
Proof.
  destruct (@onsessioninitialized_frame Samples.flag_bodies 7 "toString" initial)
    as (_ & Hlookup & _); [discriminate | exact Hlookup].
Defined.

End RouterMore.
